(** * A verified model of the Sudoku engine and extraction fallback of app.py

    The development embeds the solver ([is_valid], [find_empty],
    [solve_sudoku], [get_hint]) and the extraction orchestration
    ([extract_sudoku_with_tesseract], [extract_sudoku_with_gemini],
    [extract_sudoku_from_image], [mock_extract_sudoku]) of [app.py] as
    executable functions, and proves the properties the specification states
    about them. *)

From stdpp Require Import base list sorting strings.
From Stdlib Require Import ZArith Lia Ascii.

Local Open Scope Z_scope.

(** ** A small model of the Python constructs the source uses *)

Module Py.

(** The exceptions derived from [Exception], which [except Exception]
    catches.  [OtherError] stands for any such exception raised inside an
    external library.  What [except Exception] lets through is an [escape],
    below. *)
Inductive exn : Type :=
| IndexError
| ValueError
| SyntaxError
| RecursionError
| OtherError.

(** A call that returns a value or raises an exception derived from
    [Exception]. *)
Inductive result (A : Type) : Type :=
| Ok (a : A)
| Raise (e : exn).
Global Arguments Ok {A} a.
Global Arguments Raise {A} e.

Definition bind {A B : Type} (m : result A) (k : A -> result B) : result B :=
  match m with
  | Ok a => k a
  | Raise e => Raise e
  end.

(** [try: body  except Exception: handler] *)
Definition try_except {A : Type} (body : result A) (handler : exn -> result A)
  : result A :=
  match body with
  | Ok a => Ok a
  | Raise e => handler e
  end.

(** What no [except Exception] clause stops: an exception outside the
    [Exception] branch of [BaseException] ([SystemExit], which [sys.exit()]
    raises; the others, such as [KeyboardInterrupt]), and a computation that
    does not return. *)
Inductive escape : Type :=
| SystemExit
| OtherBaseException
| NoReturn.

(** What code comes to when it runs text it was handed, as [eval] does: a
    result, or an escape. *)
Inductive outcome (A : Type) : Type :=
| Done (r : result A)
| Escapes (x : escape).
Global Arguments Done {A} r.
Global Arguments Escapes {A} x.

Definition bind_outcome {A B : Type} (m : outcome A) (k : A -> outcome B)
  : outcome B :=
  match m with
  | Done (Ok a) => k a
  | Done (Raise e) => Done (Raise e)
  | Escapes x => Escapes x
  end.

(** [try: body  except Exception: handler], around code that can escape: the
    handler sees the exceptions derived from [Exception] and nothing else. *)
Definition try_except_outcome {A : Type} (body : outcome A)
    (handler : exn -> outcome A) : outcome A :=
  match body with
  | Done (Raise e) => handler e
  | Done (Ok a) => Done (Ok a)
  | Escapes x => Escapes x
  end.

(** Python subscript: an index in [0, len) is used as it is, an index in
    [-len, 0) counts from the end, anything else raises [IndexError]. *)
Definition norm_index (len : nat) (i : Z) : option nat :=
  if (0 <=? i) && (i <? Z.of_nat len) then Some (Z.to_nat i)
  else if (- Z.of_nat len <=? i) && (i <? 0) then Some (Z.to_nat (Z.of_nat len + i))
  else None.

(** [l[i]] *)
Definition getitem {A : Type} (l : list A) (i : Z) : result A :=
  match norm_index (length l) i with
  | Some n =>
      match l !! n with
      | Some x => Ok x
      | None => Raise IndexError
      end
  | None => Raise IndexError
  end.

(** [l[i] = x] *)
Definition setitem {A : Type} (l : list A) (i : Z) (x : A) : result (list A) :=
  match norm_index (length l) i with
  | Some n => Ok (<[n := x]> l)
  | None => Raise IndexError
  end.

(** [range(lo, hi)] *)
Definition range (lo hi : Z) : list Z := seqZ lo (hi - lo).
Global Arguments range : simpl never.

(** [for x in xs: if cond(x): return True] followed by falling through:
    the loop reports whether it returned early. *)
Fixpoint any_in {A : Type} (cond : A -> result bool) (xs : list A) : result bool :=
  match xs with
  | [] => Ok false
  | x :: rest =>
      bind (cond x) (fun hit => if hit then Ok true else any_in cond rest)
  end.

(** [for x in xs: ... return v] with the loop body returning at most once:
    the first value returned, or [None] when the loop runs to its end. *)
Fixpoint first_in {A B : Type} (body : A -> result (option B)) (xs : list A)
  : result (option B) :=
  match xs with
  | [] => Ok None
  | x :: rest =>
      bind (body x) (fun r =>
        match r with
        | Some b => Ok (Some b)
        | None => first_in body rest
        end)
  end.

(** A loop that collects one value per element, [out.append(f(x))]. *)
Fixpoint collect {A B : Type} (f : A -> result B) (xs : list A) : result (list B) :=
  match xs with
  | [] => Ok []
  | x :: rest =>
      bind (f x) (fun y => bind (collect f rest) (fun ys => Ok (y :: ys)))
  end.

End Py.

Import Py.

(** [x <- m ;; k] runs [m] and, unless it raised, continues with [k]. *)
Notation "x <- m ;; k" := (Py.bind m (fun x => k))
  (at level 61, m at next level, k at level 200, left associativity).

(** A result is an outcome, and [x <~ m ;; k] is [x <- m ;; k] for code that
    can escape. *)
Coercion Done : result >-> outcome.

Notation "x <~ m ;; k" := (Py.bind_outcome m (fun x => k))
  (at level 61, m at next level, k at level 200, left associativity).

(** ** The solver *)

Module Sudoku.

(** A board is a Python list of row lists of integers; 0 is an empty cell.
    Every board that reaches the solver is built by
    [[row[:] for row in board]] or by JSON decoding, so its rows are
    distinct objects and a board is faithfully a value. *)
Abbreviation Board := (list (list Z)).

(** [board[row][col]] *)
Definition cell (board : Board) (row col : Z) : result Z :=
  r <- getitem board row ;; getitem r col.

(** [board[row][col] = num] *)
Definition set_cell (board : Board) (row col num : Z) : result Board :=
  r <- getitem board row ;;
  r' <- setitem r col num ;;
  setitem board row r'.

(** [[row[:] for row in board]] *)
Definition copy_board (board : Board) : Board :=
  (fun row => row) <$> board.

Definition is_valid (board : Board) (row col num : Z) : result bool :=
  (* Check row *)
  hit <- any_in (fun x => v <- cell board row x ;; Ok (v =? num)) (range 0 9) ;;
  if hit then Ok false else
  (* Check column *)
  hit <- any_in (fun x => v <- cell board x col ;; Ok (v =? num)) (range 0 9) ;;
  if hit then Ok false else
  (* Check 3x3 box *)
  let start_row := 3 * (row / 3) in
  let start_col := 3 * (col / 3) in
  hit <- any_in (fun i =>
           any_in (fun j =>
             v <- cell board (i + start_row) (j + start_col) ;; Ok (v =? num))
             (range 0 3))
           (range 0 3) ;;
  if hit then Ok false else Ok true.

Definition find_empty (board : Board) : result (option (Z * Z)) :=
  first_in (fun i =>
    first_in (fun j =>
      v <- cell board i j ;;
      if v =? 0 then Ok (Some (i, j)) else Ok None)
      (range 0 9))
    (range 0 9).

(** The body of [for num in range(1, 10)] in [solve_sudoku], for a given
    recursive call [rec]. *)
Fixpoint try_values (rec : Board -> result (bool * Board))
    (row col : Z) (nums : list Z) (board : Board) : result (bool * Board) :=
  match nums with
  | [] => Ok (false, board)
  | num :: rest =>
      ok <- is_valid board row col num ;;
      if ok then
        board <- set_cell board row col num ;;
        res <- rec board ;;
        let '(solved, board) := res in
        if solved then Ok (true, board)
        else
          board <- set_cell board row col 0 ;;
          try_values rec row col rest board
      else try_values rec row col rest board
  end.

(** [solve_sudoku] with a bound on the depth of the call stack: the board is
    mutated in place, so the call returns its boolean together with the
    board as the call leaves it.  Exhausting the depth is Python's
    [RecursionError]. *)
Fixpoint solve_sudoku_depth (depth : nat) (board : Board) : result (bool * Board) :=
  match depth with
  | O => Raise RecursionError
  | S depth' =>
      empty <- find_empty board ;;
      match empty with
      | None => Ok (true, board)
      | Some (row, col) =>
          try_values (solve_sudoku_depth depth') row col (range 1 10) board
      end
  end.

(** The number of cells holding 0. *)
Definition empties (board : Board) : nat :=
  sum_list ((fun row => length (filter (fun v => v = 0) row)) <$> board).

(** The solver, run with a stack deep enough for one frame per empty cell
    ([solve_depth_spec] below shows that this depth is never exhausted). *)
Definition solve_sudoku (board : Board) : result (bool * Board) :=
  solve_sudoku_depth (S (empties board)) board.

(** The scan of [get_hint] over [range(1, 10)]. *)
Fixpoint hint_values (row col : Z) (nums : list Z) (board_copy : Board)
  : result (option (Z * Z * Z) * Board) :=
  match nums with
  | [] => Ok (None, board_copy)
  | num :: rest =>
      ok <- is_valid board_copy row col num ;;
      if ok then
        board_copy <- set_cell board_copy row col num ;;
        let solution_attempt := copy_board board_copy in
        res <- solve_sudoku solution_attempt ;;
        let '(solved, _) := res in
        if solved then Ok (Some (row, col, num), board_copy)
        else
          board_copy <- set_cell board_copy row col 0 ;;
          hint_values row col rest board_copy
      else hint_values row col rest board_copy
  end.

Definition get_hint (board : Board) : result (option (Z * Z * Z) * Board) :=
  let board_copy := copy_board board in
  empty <- find_empty board_copy ;;
  match empty with
  | None => Ok (None, board_copy)
  | Some (row, col) => hint_values row col (range 1 10) board_copy
  end.

(** [mock_extract_sudoku()]: the sample puzzle. *)
Definition mock_extract_sudoku : Board :=
  [ [5; 3; 0; 0; 7; 0; 0; 0; 0];
    [6; 0; 0; 1; 9; 5; 0; 0; 0];
    [0; 9; 8; 0; 0; 0; 0; 6; 0];
    [8; 0; 0; 0; 6; 0; 0; 0; 3];
    [4; 0; 0; 8; 0; 3; 0; 0; 1];
    [7; 0; 0; 0; 2; 0; 0; 0; 6];
    [0; 6; 0; 0; 0; 0; 2; 8; 0];
    [0; 0; 0; 4; 1; 9; 0; 0; 5];
    [0; 0; 0; 0; 8; 0; 0; 7; 9] ].

(** *** Specification vocabulary *)

(** A 9x9 grid: nine rows of nine cells. *)
Definition wf (board : Board) : Prop :=
  length board = 9%nat /\ Forall (fun row => length row = 9%nat) board.

Definition wfb (board : Board) : bool :=
  Nat.eqb (length board) 9 && forallb (fun row => Nat.eqb (length row) 9) board.

(** The value of cell (r, c) of a 9x9 grid, and the grid with that cell
    replaced; [cell_peek] and [set_cell_poke] relate them to the code's
    subscripts. *)
Definition peek (board : Board) (r c : Z) : Z :=
  default 0 (board !! Z.to_nat r ≫= fun row => row !! Z.to_nat c).

Definition poke (board : Board) (r c v : Z) : Board :=
  alter (fun row => <[Z.to_nat c := v]> row) (Z.to_nat r) board.

Definition in_grid (r c : Z) : Prop := 0 <= r < 9 /\ 0 <= c < 9.

(** The positions of row [r], of column [c], and of the 3x3 box with origin
    [(3 * br, 3 * bc)]. *)
Definition row_cells (r : Z) : list (Z * Z) :=
  (fun c => (r, c)) <$> range 0 9.

Definition col_cells (c : Z) : list (Z * Z) :=
  (fun r => (r, c)) <$> range 0 9.

Definition box_cells (br bc : Z) : list (Z * Z) :=
  i ← range 0 3; (fun j => (3 * br + i, 3 * bc + j)) <$> range 0 3.

(** The values a grid holds at a list of positions. *)
Definition values (board : Board) (cells : list (Z * Z)) : list Z :=
  (fun p => peek board p.1 p.2) <$> cells.

(** The nine rows, nine columns and nine boxes. *)
Definition is_unit (cells : list (Z * Z)) : Prop :=
  (exists r, 0 <= r < 9 /\ cells = row_cells r) \/
  (exists c, 0 <= c < 9 /\ cells = col_cells c) \/
  (exists br bc, 0 <= br < 3 /\ 0 <= bc < 3 /\ cells = box_cells br bc).

(** A completed valid grid: every row, column and box is a permutation of
    1..9. *)
Definition solved (board : Board) : Prop :=
  wf board /\
  (forall r, 0 <= r < 9 -> values board (row_cells r) ≡ₚ range 1 10) /\
  (forall c, 0 <= c < 9 -> values board (col_cells c) ≡ₚ range 1 10) /\
  (forall br bc, 0 <= br < 3 -> 0 <= bc < 3 ->
     values board (box_cells br bc) ≡ₚ range 1 10).

Definition sorted_is_1_to_9 (l : list Z) : bool :=
  bool_decide (merge_sort Z.le l = range 1 10).

Definition solvedb (board : Board) : bool :=
  wfb board
  && forallb (fun r => sorted_is_1_to_9 (values board (row_cells r))) (range 0 9)
  && forallb (fun c => sorted_is_1_to_9 (values board (col_cells c))) (range 0 9)
  && forallb (fun br =>
       forallb (fun bc => sorted_is_1_to_9 (values board (box_cells br bc)))
               (range 0 3))
       (range 0 3).

(** No cell of the grid is empty. *)
Definition full (board : Board) : Prop :=
  forall r c, in_grid r c -> peek board r c <> 0.

(** [after] keeps every non-empty cell of [before]. *)
Definition extends (before after : Board) : Prop :=
  forall r c, in_grid r c -> peek before r c <> 0 -> peek after r c = peek before r c.

(** [S] is a valid Sudoku completion of [board]. *)
Definition completion (board S : Board) : Prop :=
  solved S /\ extends board S.

(** Two cells share a row, a column or a box. *)
Definition same_unit (r c r' c' : Z) : Prop :=
  r = r' \/ c = c' \/ (r / 3 = r' / 3 /\ c / 3 = c' / 3).

(** The clues of a grid do not contradict each other: every non-empty cell
    holds a digit 1..9 that no other cell of its row, column or box
    holds. *)
Definition consistent (board : Board) : Prop :=
  wf board /\
  forall r c, in_grid r c -> peek board r c <> 0 ->
    1 <= peek board r c <= 9 /\
    forall r' c', in_grid r' c' -> (r', c') <> (r, c) -> same_unit r c r' c' ->
      peek board r' c' <> peek board r c.

(** [v] occurs in row [r], in column [c], in the box of [(r, c)]. *)
Definition in_row (board : Board) (r v : Z) : Prop :=
  exists x, 0 <= x < 9 /\ cell board r x = Ok v.

Definition in_col (board : Board) (c v : Z) : Prop :=
  exists x, 0 <= x < 9 /\ cell board x c = Ok v.

Definition in_box (board : Board) (r c v : Z) : Prop :=
  exists i j, 0 <= i < 3 /\ 0 <= j < 3 /\
    cell board (3 * (r / 3) + i) (3 * (c / 3) + j) = Ok v.

(** What [is_valid] computes on a 9x9 grid, as a boolean on [peek]. *)
Definition conflictb (board : Board) (r c v : Z) : bool :=
  existsb (fun x => peek board r x =? v) (range 0 9)
  || existsb (fun x => peek board x c =? v) (range 0 9)
  || existsb (fun i =>
       existsb (fun j => peek board (i + 3 * (r / 3)) (j + 3 * (c / 3)) =? v)
               (range 0 3))
       (range 0 3).

(** (r, c) is the first empty cell in row-major order. *)
Definition first_empty (board : Board) (r c : Z) : Prop :=
  in_grid r c /\ cell board r c = Ok 0 /\
  forall r' c', in_grid r' c' -> r' < r \/ (r' = r /\ c' < c) ->
    exists v, cell board r' c' = Ok v /\ v <> 0.

(** The solver succeeded from [before] and left [after]: a full 9x9 grid that
    keeps the clues of [before] and, if these were consistent, is
    consistent. *)
Definition found (before after : Board) : Prop :=
  wf after /\ full after /\ extends before after /\
  (consistent before -> consistent after).

(** What a call of the solver at a given depth does to a 9x9 grid. *)
Definition solve_post (depth : nat) (b : Board) : Prop :=
  (exists b', solve_sudoku_depth depth b = Ok (true, b') /\ found b b') \/
  (solve_sudoku_depth depth b = Ok (false, b) /\ forall S, ~ completion b S).

(** Boolean versions of [extends], [completion] and [consistent], for
    checking concrete grids by evaluation. *)
Definition all_cells (f : Z -> Z -> bool) : bool :=
  forallb (fun r => forallb (fun c => f r c) (range 0 9)) (range 0 9).

Definition extendsb (before after : Board) : bool :=
  all_cells (fun r c => (peek before r c =? 0) || (peek after r c =? peek before r c)).

Definition completionb (board S : Board) : bool :=
  solvedb S && extendsb board S.

Definition same_unitb (r c r' c' : Z) : bool :=
  (r =? r') || (c =? c') || ((r / 3 =? r' / 3) && (c / 3 =? c' / 3)).

Definition consistentb (board : Board) : bool :=
  wfb board &&
  all_cells (fun r c =>
    (peek board r c =? 0) ||
    ((1 <=? peek board r c) && (peek board r c <=? 9) &&
     all_cells (fun r' c' =>
       ((r' =? r) && (c' =? c)) || negb (same_unitb r c r' c')
       || negb (peek board r' c' =? peek board r c)))).

(** Placing [v] at [(r, c)] passes [is_valid], and [solve_sudoku] completes
    the grid so obtained: the test [get_hint] makes for each candidate. *)
Definition leads_to_completion (board : Board) (r c v : Z) : Prop :=
  is_valid board r c v = Ok true /\
  exists board1 S, set_cell board r c v = Ok board1 /\
                   solve_sudoku board1 = Ok (true, S).

Definition leadsb (board : Board) (r c v : Z) : bool :=
  match is_valid board r c v, set_cell board r c v with
  | Ok true, Ok board1 =>
      match solve_sudoku board1 with
      | Ok (true, _) => true
      | _ => false
      end
  | _, _ => false
  end.

(** The inner loop of [find_empty]: the scan of row [i]. *)
Definition row_scan (b : Board) (i : Z) : result (option (Z * Z)) :=
  first_in (fun j => v <- cell b i j ;; if v =? 0 then Ok (Some (i, j)) else Ok None)
           (range 0 9).

(** All completions of a grid, by exhaustive search: a device for showing
    that a given grid has exactly one completion. *)
Fixpoint all_solutions (depth : nat) (board : Board) : list Board :=
  match depth with
  | O => []
  | S depth' =>
      match find_empty board with
      | Ok None => [board]
      | Ok (Some (row, col)) =>
          num ← range 1 10;
          match is_valid board row col num, set_cell board row col num with
          | Ok true, Ok board' => all_solutions depth' board'
          | _, _ => []
          end
      | Raise _ => []
      end
  end.

(** The completion of the sample puzzle. *)
Definition sample_solution : Board :=
  [ [5; 3; 4; 6; 7; 8; 9; 1; 2];
    [6; 7; 2; 1; 9; 5; 3; 4; 8];
    [1; 9; 8; 3; 4; 2; 5; 6; 7];
    [8; 5; 9; 7; 6; 1; 4; 2; 3];
    [4; 2; 6; 8; 5; 3; 7; 9; 1];
    [7; 1; 3; 9; 2; 4; 8; 5; 6];
    [9; 6; 1; 5; 3; 7; 2; 8; 4];
    [2; 8; 7; 4; 1; 9; 6; 3; 5];
    [3; 4; 5; 2; 8; 6; 1; 7; 9] ].

(** The completed sample with the 3 of row 0 overwritten by a second 5 and
    the last cell emptied: two identical digits in one row. *)
Definition two_fives : Board :=
  [ [5; 5; 4; 6; 7; 8; 9; 1; 2];
    [6; 7; 2; 1; 9; 5; 3; 4; 8];
    [1; 9; 8; 3; 4; 2; 5; 6; 7];
    [8; 5; 9; 7; 6; 1; 4; 2; 3];
    [4; 2; 6; 8; 5; 3; 7; 9; 1];
    [7; 1; 3; 9; 2; 4; 8; 5; 6];
    [9; 6; 1; 5; 3; 7; 2; 8; 4];
    [2; 8; 7; 4; 1; 9; 6; 3; 5];
    [3; 4; 5; 2; 8; 6; 1; 7; 0] ].

Definition two_fives_filled : Board :=
  [ [5; 5; 4; 6; 7; 8; 9; 1; 2];
    [6; 7; 2; 1; 9; 5; 3; 4; 8];
    [1; 9; 8; 3; 4; 2; 5; 6; 7];
    [8; 5; 9; 7; 6; 1; 4; 2; 3];
    [4; 2; 6; 8; 5; 3; 7; 9; 1];
    [7; 1; 3; 9; 2; 4; 8; 5; 6];
    [9; 6; 1; 5; 3; 7; 2; 8; 4];
    [2; 8; 7; 4; 1; 9; 6; 3; 5];
    [3; 4; 5; 2; 8; 6; 1; 7; 9] ].

(** Consistent clues that leave no digit for the first cell: 1..8 fill the
    rest of row 0 and 9 stands below it. *)
Definition blocked_corner : Board :=
  [ [0; 1; 2; 3; 4; 5; 6; 7; 8];
    [9; 0; 0; 0; 0; 0; 0; 0; 0];
    [0; 0; 0; 0; 0; 0; 0; 0; 0];
    [0; 0; 0; 0; 0; 0; 0; 0; 0];
    [0; 0; 0; 0; 0; 0; 0; 0; 0];
    [0; 0; 0; 0; 0; 0; 0; 0; 0];
    [0; 0; 0; 0; 0; 0; 0; 0; 0];
    [0; 0; 0; 0; 0; 0; 0; 0; 0];
    [0; 0; 0; 0; 0; 0; 0; 0; 0] ].

End Sudoku.

Import Sudoku.

(** ** The extraction pipeline *)

Module Extraction.

(** Values a strategy can hand back.  The vision-model path returns whatever
    [eval] makes of the reply, so the model keeps integers, lists and [None]
    apart and lets [VOther] stand for any other object, with its truth
    value. *)
#[warnings="-register-all"]
Inductive value : Type :=
| VNone
| VInt (z : Z)
| VList (items : list value)
| VOther (truth : bool).

(** A board as a Python list of lists of integers. *)
Definition of_board (board : Board) : value :=
  VList ((fun row => VList (VInt <$> row)) <$> board).

(** [if v:] *)
Definition truthy (v : value) : bool :=
  match v with
  | VNone => false
  | VInt z => negb (z =? 0)
  | VList items => negb (Nat.eqb (length items) 0)
  | VOther truth => truth
  end.

(** A well-formed grid: nine rows of nine integers 0..9. *)
Definition is_grid (v : value) : Prop :=
  exists board, v = of_board board /\ wf board /\
                Forall (Forall (fun digit => 0 <= digit <= 9)) board.

(** What the code takes from its collaborators: the availability flags set at
    import time, the environment variable, and the calls into PIL, OpenCV,
    pytesseract, the generative-AI client and the Python builtins.  Each call
    either returns or raises an exception derived from [Exception]; [eval],
    which runs text chosen by the vision model with the names of the module
    in scope ([sys] among them), can also leave through [SystemExit] or
    another [BaseException], or not return.  [preprocess_sudoku_image]
    consists of OpenCV calls and a floating-point aspect-ratio test only and
    is kept whole. *)
Record Env : Type := {
  Image : Type;
  tesseract_available : bool;                       (* TESSERACT_AVAILABLE *)
  gemini_available : bool;                          (* GEMINI_AVAILABLE *)
  gemini_api_key : option string;                   (* os.environ.get("GEMINI_API_KEY") *)
  open_image : string -> result Image;              (* Image.open(io.BytesIO(base64.b64decode(_))) *)
  preprocess_sudoku_image : Image -> result Image;
  image_width : Image -> Z;                         (* grid_image.width *)
  image_crop : Image -> Z * Z * Z * Z -> result Image;
  image_expand : Image -> result Image;             (* ImageOps.expand(cell, border=2, fill=255) *)
  image_resize : Image -> result Image;             (* cell.resize((28, 28), Image.LANCZOS) *)
  image_invert : Image -> result Image;             (* ImageOps.invert *)
  image_enhance : Image -> result Image;            (* ImageEnhance.Contrast(_).enhance(2.0) *)
  image_to_string : Image -> result string;         (* pytesseract.image_to_string *)
  str_strip : string -> string;                     (* str.strip *)
  str_isdigit : string -> bool;                     (* str.isdigit *)
  py_int : string -> result Z;                      (* int(_) *)
  genai_configure : string -> result unit;          (* genai.configure(api_key=_) *)
  generate_content : Image -> result string;        (* model.generate_content([prompt, image]).text *)
  py_eval : string -> outcome value                 (* eval(_) *)
}.

(** [s.split(',')] *)
Fixpoint split_comma (s : string) : list string :=
  match s with
  | EmptyString => [EmptyString]
  | String ch rest =>
      if Ascii.eqb ch ","%char then EmptyString :: split_comma rest
      else match split_comma rest with
           | first :: others => String ch first :: others
           | [] => [String ch EmptyString]
           end
  end.

(** [s] with the prefix [p] removed, when [s] starts with [p]. *)
Fixpoint strip_prefix (p s : string) : option string :=
  match p, s with
  | EmptyString, _ => Some s
  | String a p', String b s' => if Ascii.eqb a b then strip_prefix p' s' else None
  | String _ _, EmptyString => None
  end.

(** The tail [.*?\]\]] of the pattern, matched lazily with [re.DOTALL]: the
    text up to and including the first "]]". *)
Fixpoint lazy_until_close (s : string) : option string :=
  match strip_prefix "]]" s with
  | Some _ => Some "]]"%string
  | None =>
      match s with
      | EmptyString => None
      | String ch rest => String ch <$> lazy_until_close rest
      end
  end.

(** The pattern [\[\[.*?\]\]] anchored at the start of [s]. *)
Definition match_here (s : string) : option string :=
  rest ← strip_prefix "[[" s;
  body ← lazy_until_close rest;
  Some ("[[" ++ body)%string.

(** [re.search(r'\[\[.*?\]\]', s, re.DOTALL)]: the match at the leftmost
    position that has one. *)
Fixpoint re_search_matrix (s : string) : option string :=
  match match_here s with
  | Some m => Some m
  | None =>
      match s with
      | EmptyString => None
      | String _ rest => re_search_matrix rest
      end
  end.

Section Strategies.
Variable E : Env.

Definition configure_genai (api_key : string) : result bool :=
  if gemini_available E then
    _ <- genai_configure E api_key ;; Ok true
  else Ok false.

Definition extract_cells (grid_image : Image E) : result (list (list (Image E))) :=
  let cell_size := image_width E grid_image / 9 in
  collect (fun row =>
    collect (fun col =>
      let left_ := col * cell_size in
      let upper := row * cell_size in
      let right_ := left_ + cell_size in
      let lower := upper + cell_size in
      cell <- image_crop E grid_image (left_, upper, right_, lower) ;;
      cell <- image_expand E cell ;;
      cell <- image_resize E cell ;;
      Ok cell)
      (range 0 9))
    (range 0 9).

Definition recognize_digit (cell_image : Image E) : result Z :=
  cell_image <- image_invert E cell_image ;;
  cell_image <- image_enhance E cell_image ;;
  try_except
    (text <- image_to_string E cell_image ;;
     let digit := str_strip E text in
     if negb (String.eqb digit EmptyString) && str_isdigit E digit then
       n <- py_int E digit ;;
       if (1 <=? n) && (n <=? 9) then Ok n else Ok 0
     else Ok 0)
    (fun _ => Ok 0).

(** The first half of [extract_sudoku_with_tesseract]: the board of
    recognized digits. *)
Definition recognize_board (image : Image E) : result Board :=
  preprocessed_image <- preprocess_sudoku_image E image ;;
  cells <- extract_cells preprocessed_image ;;
  collect (fun row_cells => collect recognize_digit row_cells) cells.

(** [sum(1 for row in board for digit in row if digit > 0)] *)
Definition digit_count (board : Board) : Z :=
  Z.of_nat (length (row ← board; filter (fun digit => 0 < digit) row)).

Definition extract_sudoku_with_tesseract (image : Image E) : result value :=
  try_except
    (board <- recognize_board image ;;
     if digit_count board <? 17 then Ok VNone else Ok (of_board board))
    (fun _ => Ok VNone).

Definition extract_sudoku_with_gemini (image : Image E) (image_data : string)
  : outcome value :=
  try_except_outcome
    (response_text <~ generate_content E image ;;
     match re_search_matrix response_text with
     | Some matrix_str => board <~ py_eval E matrix_str ;; Ok board
     | None => Ok VNone
     end)
    (fun _ => Ok VNone).

(** [Image.open(io.BytesIO(base64.b64decode(image_data.split(',')[1])))] *)
Definition decode_image (image_data : string) : result (Image E) :=
  encoded <- getitem (split_comma image_data) 1 ;;
  open_image E encoded.

(** The Tesseract attempt of [extract_sudoku_from_image]: the board it
    returns, if it returns one. *)
Definition try_tesseract (image : Image E) : result (option value) :=
  if tesseract_available E then
    board <- extract_sudoku_with_tesseract image ;;
    if truthy board then Ok (Some board) else Ok None
  else Ok None.

(** The Gemini attempt of [extract_sudoku_from_image]. *)
Definition try_gemini (image : Image E) (image_data : string)
  : outcome (option value) :=
  if gemini_available E then
    match gemini_api_key E with
    | Some api_key =>
        if negb (String.eqb api_key EmptyString) then
          _ <~ configure_genai api_key ;;
          board <~ extract_sudoku_with_gemini image image_data ;;
          if truthy board then Ok (Some board) else Ok None
        else Ok None
    | None => Ok None
    end
  else Ok None.

Definition extract_sudoku_from_image (image_data : string) : outcome value :=
  try_except_outcome
    (image <~ decode_image image_data ;;
     first <~ try_tesseract image ;;
     match first with
     | Some board => Ok board
     | None =>
         second <~ try_gemini image image_data ;;
         match second with
         | Some board => Ok board
         | None => Ok (of_board mock_extract_sudoku)
         end
     end)
    (fun _ => Ok (of_board mock_extract_sudoku)).

End Strategies.

(** *** Specification vocabulary *)

(** The number of non-zero cells of a recognition result. *)
Definition nonzero_count (board : Board) : Z :=
  Z.of_nat (length (row ← board; filter (fun digit => digit <> 0) row)).





(** The text of a list of lists of integer literals written without blanks,
    signs or leading zeros, such as [[1,2],[3]], read as the list it
    denotes. *)
Inductive scan_state : Type :=
| AtStart
| OuterOpen (rows : list (list Z))
| RowOpen (rows : list (list Z)) (cells : list Z)
| InNumber (rows : list (list Z)) (cells : list Z) (n : Z) (zero : bool)
| RowClosed (rows : list (list Z))
| Finished (rows : list (list Z)).

Definition digit_of (ch : ascii) : option Z :=
  let n := Z.of_nat (nat_of_ascii ch) in
  if (48 <=? n) && (n <=? 57) then Some (n - 48) else None.

Definition scan_step (st : scan_state) (ch : ascii) : option scan_state :=
  match st with
  | AtStart => if Ascii.eqb ch "["%char then Some (OuterOpen []) else None
  | OuterOpen rows => if Ascii.eqb ch "["%char then Some (RowOpen rows []) else None
  | RowOpen rows cells =>
      d ← digit_of ch; Some (InNumber rows cells d (d =? 0))
  | InNumber rows cells n zero =>
      match digit_of ch with
      | Some d => if zero then None else Some (InNumber rows cells (10 * n + d) false)
      | None =>
          if Ascii.eqb ch ","%char then Some (RowOpen rows (n :: cells))
          else if Ascii.eqb ch "]"%char then Some (RowClosed (rev (n :: cells) :: rows))
          else None
      end
  | RowClosed rows =>
      if Ascii.eqb ch ","%char then Some (OuterOpen rows)
      else if Ascii.eqb ch "]"%char then Some (Finished rows)
      else None
  | Finished _ => None
  end.

Fixpoint scan (st : scan_state) (s : string) : option (list (list Z)) :=
  match s with
  | EmptyString =>
      match st with
      | Finished rows => Some (rev rows)
      | _ => None
      end
  | String ch rest => st' ← scan_step st ch; scan st' rest
  end.

(** [eval] where the stand-in follows it: the text of a list of lists of
    integer literals evaluates to that list, and the text [[sys.exit()]]
    calls [sys.exit], which raises [SystemExit].  Any other text is outside
    what the stand-in describes; it is answered [SyntaxError], which is what
    [eval] answers text that is not an expression. *)
Definition eval_literal (s : string) : outcome value :=
  match scan AtStart s with
  | Some rows => Ok (of_board rows)
  | None =>
      if String.eqb s "[[sys.exit()]]" then Escapes SystemExit
      else Raise SyntaxError
  end.

(** ASCII white space, what [str.strip] removes and [int] skips: the codes
    9..13, 28..31 and 32. *)
Definition is_space (ch : ascii) : bool :=
  let n := Z.of_nat (nat_of_ascii ch) in
  ((9 <=? n) && (n <=? 13)) || ((28 <=? n) && (n <=? 32)).

Fixpoint lstrip (s : string) : string :=
  match s with
  | EmptyString => EmptyString
  | String ch rest => if is_space ch then lstrip rest else s
  end.

Definition reverse_text (s : string) : string :=
  String.string_of_list_ascii (rev (String.list_ascii_of_string s)).

(** [s.strip()] on ASCII text. *)
Definition strip (s : string) : string :=
  reverse_text (lstrip (reverse_text (lstrip s))).

(** The digits of a decimal literal as [int] takes them: a digit first and
    last, and single underscores between digits. *)
Fixpoint grouped_digits (after_digit : bool) (s : string) : bool :=
  match s with
  | EmptyString => after_digit
  | String ch rest =>
      match digit_of ch with
      | Some _ => grouped_digits true rest
      | None => Ascii.eqb ch "_"%char && after_digit && grouped_digits false rest
      end
  end.

(** [int(s)] on ASCII text: white space around, a sign, decimal digits. *)
Definition int_of_text (s : string) : result Z :=
  let t := strip s in
  let '(negative, digits) :=
    match t with
    | String ch rest =>
        if Ascii.eqb ch "-"%char then (true, rest)
        else if Ascii.eqb ch "+"%char then (false, rest)
        else (false, t)
    | EmptyString => (false, t)
    end in
  if grouped_digits false digits then
    let n := fold_left (fun acc ch =>
                          match digit_of ch with
                          | Some d => 10 * acc + d
                          | None => acc
                          end)
                       (String.list_ascii_of_string digits) 0 in
    Ok (if negative then - n else n)
  else Raise ValueError.

(** The base64 text of a PNG file: a white picture of 9 by 9 pixels. *)
Definition blank_png : string :=
  "iVBORw0KGgoAAAANSUhEUgAAAAkAAAAJCAAAAADF+lnMAAAAD0lEQVR42mP4DwMMVGYBAC/vULA3VN6nAAAAAElFTkSuQmCC".

(** What a picture with nothing on it shows: no digit in any cell. *)
Definition blank : list (list Z) := replicate 9 (replicate 9 0).

Definition digit_text (z : Z) : string :=
  if (1 <=? z) && (z <=? 9) then String (ascii_of_nat (Z.to_nat (48 + z))) EmptyString
  else EmptyString.

Definition all_digits (s : string) : bool :=
  negb (String.eqb s EmptyString) &&
  forallb (fun ch => match digit_of ch with Some _ => true | None => false end)
          (String.list_ascii_of_string s).

(** A stand-in for the collaborators, for running the pipeline on examples:
    an image is the grid of digits printed on it, one pixel per cell, which
    recognition reads back; the one encoded picture the decoder knows is
    [blank_png], and every other text is answered as text that is not an
    image; strings are ASCII text; the vision model answers with the text
    given as [reply].  No theorem depends on the stand-in: each is stated for
    every [Env]. *)
Definition printed_env (tesseract gemini : bool) (api_key : option string)
    (reply : result string) : Env :=
  {| Image := Board;
     tesseract_available := tesseract;
     gemini_available := gemini;
     gemini_api_key := api_key;
     open_image := fun encoded =>
       if String.eqb encoded blank_png then Ok blank else Raise OtherError;
     preprocess_sudoku_image := fun image => Ok image;
     image_width := fun image => 9;
     image_crop := fun image box =>
       let '(x0, y0, _, _) := box in Ok [[peek image y0 x0]];
     image_expand := fun cell => Ok cell;
     image_resize := fun cell => Ok cell;
     image_invert := fun cell => Ok cell;
     image_enhance := fun cell => Ok cell;
     image_to_string := fun cell => Ok (digit_text (peek cell 0 0));
     str_strip := strip;
     str_isdigit := all_digits;
     py_int := int_of_text;
     genai_configure := fun _ => Ok tt;
     generate_content := fun _ => reply;
     py_eval := eval_literal |}.

(** A recognition result with 16 clues. *)
Definition sixteen_clues : Board :=
  [ [5; 3; 0; 0; 7; 0; 0; 0; 0];
    [6; 0; 0; 1; 9; 5; 0; 0; 0];
    [0; 9; 8; 0; 0; 0; 0; 6; 0];
    [8; 0; 0; 0; 6; 0; 0; 0; 3];
    [4; 0; 0; 8; 0; 3; 0; 0; 0];
    [0; 0; 0; 0; 0; 0; 0; 0; 0];
    [0; 0; 0; 0; 0; 0; 0; 0; 0];
    [0; 0; 0; 0; 0; 0; 0; 0; 0];
    [0; 0; 0; 0; 0; 0; 0; 0; 0] ].

End Extraction.

Import Extraction.

(** ** Vocabulary for further properties of the solver and the hints *)

Module Derived.

(** Cell (r', c') comes before cell (r, c) in the row-major scan. *)
Definition before_cell (r' c' r c : Z) : Prop :=
  r' < r \/ (r' = r /\ c' < c).

(** [b1] is not after [b2] when grids are compared cell by cell in row-major
    order: they agree, or at the first cell where they differ [b1] holds the
    smaller value. *)
Definition row_major_le (b1 b2 : Board) : Prop :=
  (forall r c, in_grid r c -> peek b1 r c = peek b2 r c) \/
  exists r c, in_grid r c /\ peek b1 r c < peek b2 r c /\
    forall r' c', in_grid r' c' -> before_cell r' c' r c ->
      peek b1 r' c' = peek b2 r' c'.

(** Asking for a hint and going on from the working copy that [get_hint]
    hands back, the hint placed, at most [n] times. *)
Fixpoint follow_hints (n : nat) (board : Board) : result Board :=
  match n with
  | O => Ok board
  | S n' =>
      res <- get_hint board ;;
      match res with
      | (Some _, board_copy) => follow_hints n' board_copy
      | (None, _) => Ok board
      end
  end.

End Derived.

Import Derived.

(** ** A stand-in whose decoder yields a given image *)

Module StandIn.

(** [printed_env] with a decoder that answers every encoded text with
    [image]. *)
Definition shown_env (image : Board) (tesseract gemini : bool)
    (api_key : option string) (reply : result string) : Env :=
  let E := printed_env tesseract gemini api_key reply in
  {| Image := Board;
     tesseract_available := tesseract_available E;
     gemini_available := gemini_available E;
     gemini_api_key := gemini_api_key E;
     open_image := fun _ => Ok image;
     preprocess_sudoku_image := preprocess_sudoku_image E;
     image_width := image_width E;
     image_crop := image_crop E;
     image_expand := image_expand E;
     image_resize := image_resize E;
     image_invert := image_invert E;
     image_enhance := image_enhance E;
     image_to_string := image_to_string E;
     str_strip := str_strip E;
     str_isdigit := str_isdigit E;
     py_int := py_int E;
     genai_configure := genai_configure E;
     generate_content := generate_content E;
     py_eval := py_eval E |}.

End StandIn.

Import StandIn.

(** ** The request handlers *)

Module Routes.

(** A cell of the board of a request, as JSON decoding delivers it: [null], a
    string, an integer or a boolean.  The board is taken to be an array of
    arrays of such scalars; numbers with a fraction and nested values are
    outside the model. *)
Inductive jcell : Type :=
| JNull
| JStr (s : string)
| JNum (z : Z)
| JBool (b : bool).

Abbreviation JBoard := (list (list jcell)).

(** [x == '' or x is None] *)
Definition is_blank (x : jcell) : bool :=
  match x with
  | JNull => true
  | JStr s => String.eqb s EmptyString
  | _ => false
  end.

(** [int(x)] on a scalar that is not [None]. *)
Definition to_int (E : Env) (x : jcell) : result Z :=
  match x with
  | JNull => Raise OtherError
  | JStr s => py_int E s
  | JNum z => Ok z
  | JBool b => Ok (if b then 1 else 0)
  end.

(** [for x in xs: state = body(state, x)] *)
Fixpoint for_each {A S : Type} (body : S -> A -> result S) (xs : list A) (s : S)
  : result S :=
  match xs with
  | [] => Ok s
  | x :: rest => s' <- body s x ;; for_each body rest s'
  end.

(** The body of the two loops that both handlers run over the board:
    [board[i][j] = 0] for a blank cell, [board[i][j] = int(board[i][j])]
    otherwise. *)
Definition normalize_cell (E : Env) (board : JBoard) (i j : Z) : result JBoard :=
  row <- getitem board i ;;
  x <- getitem row j ;;
  if is_blank x then
    row' <- setitem row j (JNum 0) ;; setitem board i row'
  else
    n <- to_int E x ;;
    row' <- setitem row j (JNum n) ;; setitem board i row'.

(** [for i in range(9): for j in range(9): ...] *)
Definition normalize_board (E : Env) (board : JBoard) : result JBoard :=
  for_each (fun board i =>
    for_each (fun board j => normalize_cell E board i j) (range 0 9) board)
    (range 0 9) board.

(** The board the solver works on.  After the loops every cell of the first
    nine rows and columns is an integer; the solver reads and writes no other
    cell, so a cell beyond them that is not an integer appears here as 0
    without being looked at. *)
Definition as_ints (board : JBoard) : Board :=
  (fun row : list jcell =>
     (fun x => match x with JNum z => z | _ => 0 end) <$> row) <$> board.

(** The list the solver leaves, in the terms of the request: the integers it
    holds, and beyond the first nine rows and columns the cells of the
    request as they were. *)
Definition with_ints (board : JBoard) (ints : Board) : JBoard :=
  zip_with (zip_with (fun x z => match x with JNum _ => JNum z | _ => x end))
           board ints.

(** What a handler answers. *)
Inductive response : Type :=
| Solution (solution : JBoard)         (* 200, {'solution': solution} *)
| Hint (row col value : Z)             (* 200, {'hint': {...}} *)
| Extracted (board : value)            (* 200, {'board': board} *)
| NoBoard                              (* 400, 'No board data provided' *)
| NoSolution                           (* 400, 'No solution exists for this puzzle' *)
| NoHint                               (* 400, 'Could not find a hint for this puzzle' *)
| NoImage                              (* 400, 'No image data provided' *)
| NotExtracted                         (* 400, 'Could not extract Sudoku puzzle from image' *)
| ServerError (e : exn).               (* 500, str(e) *)

Definition status (r : response) : Z :=
  match r with
  | Solution _ | Hint _ _ _ | Extracted _ => 200
  | NoBoard | NoSolution | NoHint | NoImage | NotExtracted => 400
  | ServerError _ => 500
  end.

(** The outer [try: ... except Exception as e: return ..., 500]. *)
Definition answer (body : result response) : response :=
  match body with
  | Ok r => r
  | Raise e => ServerError e
  end.

(** [solve()], from [board = data.get('board')] on; [None] is a request
    without a board. *)
Definition solve (E : Env) (board : option JBoard) : response :=
  answer
    match board with
    | None | Some [] => Ok NoBoard
    | Some board =>
        board <- normalize_board E board ;;
        let solution := (fun row : list jcell => row) <$> board in
        res <- solve_sudoku (as_ints solution) ;;
        let '(solved, ints) := res in
        if solved then Ok (Solution (with_ints solution ints))
        else Ok NoSolution
    end.

(** [hint()], from [board = data.get('board')] on. *)
Definition hint (E : Env) (board : option JBoard) : response :=
  answer
    match board with
    | None | Some [] => Ok NoBoard
    | Some board =>
        board <- normalize_board E board ;;
        res <- get_hint (as_ints board) ;;
        match res with
        | (Some (row, col, value), _) => Ok (Hint row col value)
        | (None, _) => Ok NoHint
        end
    end.


(** *** Specification vocabulary *)

(** The integer the loops store for a cell: 0 for a blank, [int] of anything
    else. *)
Definition cell_int (E : Env) (x : jcell) : result Z :=
  if is_blank x then Ok 0 else to_int E x.

(** A request board of nine rows of nine cells. *)
Definition wf_request (board : JBoard) : Prop :=
  length board = 9%nat /\ Forall (fun row => length row = 9%nat) board.

(** The request board [board] reads as the grid [grid]: same shape, and every
    cell converts to the integer at its place. *)
Definition reads_as (E : Env) (board : JBoard) (grid : Board) : Prop :=
  Forall2 (Forall2 (fun x z => cell_int E x = Ok z)) board grid.

(** A grid as the board of a response. *)
Definition of_ints (grid : Board) : JBoard :=
  (fun row : list Z => JNum <$> row) <$> grid.

(** A request board as the frontend sends it: integers, with 0 or an empty
    string or [null] for an empty cell. *)
Definition sample_request : JBoard :=
  [ [JNum 5; JNum 3; JStr EmptyString; JNull; JNum 7; JNum 0; JNum 0; JNum 0; JNum 0];
    [JNum 6; JNum 0; JNum 0; JNum 1; JNum 9; JNum 5; JNum 0; JNum 0; JNum 0];
    [JNum 0; JNum 9; JNum 8; JNum 0; JNum 0; JNum 0; JNum 0; JNum 6; JNum 0];
    [JNum 8; JNum 0; JNum 0; JNum 0; JNum 6; JNum 0; JNum 0; JNum 0; JNum 3];
    [JNum 4; JNum 0; JNum 0; JNum 8; JNum 0; JNum 3; JNum 0; JNum 0; JNum 1];
    [JNum 7; JNum 0; JNum 0; JNum 0; JNum 2; JNum 0; JNum 0; JNum 0; JNum 6];
    [JNum 0; JNum 6; JNum 0; JNum 0; JNum 0; JNum 0; JNum 2; JNum 8; JNum 0];
    [JNum 0; JNum 0; JNum 0; JNum 4; JNum 1; JNum 9; JNum 0; JNum 0; JNum 5];
    [JNum 0; JNum 0; JNum 0; JNum 0; JNum 8; JNum 0; JNum 0; JNum 7; JNum 9] ].

End Routes.

Import Routes.

(** * Facts about the Python model *)

Module PyFacts.

Lemma range_elem lo hi x : x ∈ range lo hi <-> lo <= x < hi.
Proof. unfold range. rewrite elem_of_seqZ. lia. Qed.

Lemma norm_index_nonneg len i :
  0 <= i < Z.of_nat len -> norm_index len i = Some (Z.to_nat i).
Proof.
  intros Hi. unfold norm_index.
  destruct (Z.leb_spec 0 i), (Z.ltb_spec i (Z.of_nat len)); simpl; try lia.
  reflexivity.
Qed.

Lemma getitem_nonneg {A} (l : list A) i x :
  0 <= i -> l !! Z.to_nat i = Some x -> getitem l i = Ok x.
Proof.
  intros Hi Hx. unfold getitem.
  apply lookup_lt_Some in Hx as Hlen.
  rewrite norm_index_nonneg by lia. by rewrite Hx.
Qed.

Lemma setitem_nonneg {A} (l : list A) i x :
  0 <= i < Z.of_nat (length l) -> setitem l i x = Ok (<[Z.to_nat i := x]> l).
Proof. intros Hi. unfold setitem. by rewrite norm_index_nonneg. Qed.

(** A scan whose condition never raises is [existsb]. *)
Lemma any_in_existsb {A} (cond : A -> result bool) (g : A -> bool) xs :
  (forall x, x ∈ xs -> cond x = Ok (g x)) ->
  any_in cond xs = Ok (existsb g xs).
Proof.
  induction xs as [|x xs IH]; intros Hc; simpl; [done|].
  rewrite (Hc x) by left. simpl.
  destruct (g x); simpl; [done|].
  apply IH. intros y Hy. apply Hc. by right.
Qed.

Lemma existsb_elem {A} (g : A -> bool) xs :
  existsb g xs = true <-> exists x, x ∈ xs /\ g x = true.
Proof.
  rewrite existsb_exists. split; intros (x & Hx & Hg); exists x; split; try done;
    by apply list_elem_of_In.
Qed.

(** A scan whose body never raises stops at the first element for which
    the body returns a value. *)
Lemma first_in_cases {A B} (body : A -> result (option B)) (g : A -> option B) xs :
  (forall x, x ∈ xs -> body x = Ok (g x)) ->
  (first_in body xs = Ok None /\ forall x, x ∈ xs -> g x = None) \/
  (exists pre x post b, xs = pre ++ x :: post /\ (forall y, y ∈ pre -> g y = None)
     /\ g x = Some b /\ first_in body xs = Ok (Some b)).
Proof.
  induction xs as [|x xs IH]; intros Hb.
  - left. split; [done|]. intros x Hx. by apply elem_of_nil in Hx.
  - simpl. rewrite (Hb x) by left. simpl.
    destruct (g x) as [b|] eqn:Hg.
    + right. exists [], x, xs, b. split_and!; try done.
      intros y Hy. by apply elem_of_nil in Hy.
    + destruct IH as [[H1 H2]|(pre & y & post & b & -> & Hpre & Hy & Hf)].
      * intros y Hy. apply Hb. by right.
      * left. split; [done|]. intros y [->|Hy]%elem_of_cons; auto.
      * right. exists (x :: pre), y, post, b. split_and!; try done.
        intros z [->|Hz]%elem_of_cons; auto.
Qed.

End PyFacts.

(** * Facts about boards *)

Module BoardFacts.
Import PyFacts.

Lemma wfb_wf b : wfb b = true <-> wf b.
Proof.
  unfold wfb, wf. rewrite andb_true_iff, Nat.eqb_eq, forallb_forall, Forall_forall.
  split; intros [H1 H2]; (split; [done|]); intros row Hrow.
  - apply Nat.eqb_eq, H2. by apply list_elem_of_In.
  - apply Nat.eqb_eq, H2. by apply list_elem_of_In.
Qed.

Lemma wf_row b r :
  wf b -> 0 <= r < 9 ->
  exists row, b !! Z.to_nat r = Some row /\ length row = 9%nat.
Proof.
  intros [Hlen Hrows] Hr.
  destruct (lookup_lt_is_Some_2 b (Z.to_nat r)) as [row Hrow]; [lia|].
  exists row. split; [done|].
  rewrite Forall_forall in Hrows. eapply Hrows, list_elem_of_lookup_2, Hrow.
Qed.

Lemma wf_cell b r c :
  wf b -> in_grid r c ->
  exists row, b !! Z.to_nat r = Some row /\ length row = 9%nat /\
              row !! Z.to_nat c = Some (peek b r c).
Proof.
  intros Hwf [Hr Hc]. destruct (wf_row b r Hwf Hr) as (row & Hrow & Hlen).
  exists row. split_and!; try done.
  destruct (lookup_lt_is_Some_2 row (Z.to_nat c)) as [v Hv]; [lia|].
  unfold peek. rewrite Hrow. simpl. by rewrite Hv.
Qed.

(** On a 9x9 grid the subscript [board[r][c]] never raises. *)
Lemma cell_peek b r c :
  wf b -> in_grid r c -> cell b r c = Ok (peek b r c).
Proof.
  intros Hwf Hrc. destruct (wf_cell b r c Hwf Hrc) as (row & Hrow & Hlen & Hv).
  destruct Hrc as [Hr Hc]. unfold cell.
  rewrite (getitem_nonneg b r row) by (done || lia). simpl.
  apply getitem_nonneg; [lia|done].
Qed.

(** On a 9x9 grid the store [board[r][c] = v] never raises. *)
Lemma set_cell_poke b r c v :
  wf b -> in_grid r c -> set_cell b r c v = Ok (poke b r c v).
Proof.
  intros Hwf Hrc. destruct (wf_cell b r c Hwf Hrc) as (row & Hrow & Hlen & Hv).
  destruct Hrc as [Hr Hc]. unfold set_cell.
  rewrite (getitem_nonneg b r row) by (done || lia). simpl.
  rewrite setitem_nonneg by lia. simpl.
  destruct Hwf as [Hb _]. rewrite setitem_nonneg by lia.
  f_equal. unfold poke. apply list_eq. intros i.
  destruct (decide (i = Z.to_nat r)) as [->|Hne].
  - rewrite list_lookup_insert_eq by lia. rewrite list_lookup_alter_eq.
    by rewrite Hrow.
  - rewrite list_lookup_insert_ne by done. by rewrite list_lookup_alter_ne.
Qed.

Lemma poke_wf b r c v : wf b -> wf (poke b r c v).
Proof.
  intros [Hlen Hrows]. unfold poke. split.
  - by rewrite length_alter.
  - apply Forall_alter; [done|]. intros row Hrow Hl. by rewrite length_insert.
Qed.

Lemma peek_poke_eq b r c v : wf b -> in_grid r c -> peek (poke b r c v) r c = v.
Proof.
  intros Hwf Hrc. destruct (wf_cell b r c Hwf Hrc) as (row & Hrow & Hlen & Hv).
  destruct Hrc as [Hr Hc]. unfold peek, poke.
  rewrite list_lookup_alter_eq, Hrow. simpl.
  by rewrite list_lookup_insert_eq by lia.
Qed.

Lemma peek_poke_ne b r c v r' c' :
  0 <= r -> 0 <= c -> 0 <= r' -> 0 <= c' ->
  (r', c') <> (r, c) -> peek (poke b r c v) r' c' = peek b r' c'.
Proof.
  intros Hr Hc Hr' Hc' Hne. unfold peek, poke.
  destruct (decide (r' = r)) as [->|Hrr].
  - rewrite list_lookup_alter_eq. destruct (b !! Z.to_nat r) as [row|]; simpl; [|done].
    rewrite list_lookup_insert_ne; [done|].
    intros Heq. apply Hne. f_equal. apply Z2Nat.inj in Heq; lia.
  - rewrite list_lookup_alter_ne; [done|].
    intros Heq. apply Hrr. apply Z2Nat.inj in Heq; lia.
Qed.

Lemma peek_poke b r c v r' c' :
  wf b -> in_grid r c -> in_grid r' c' ->
  peek (poke b r c v) r' c' = if decide ((r', c') = (r, c)) then v else peek b r' c'.
Proof.
  intros Hwf Hrc Hrc'. case_decide as Heq.
  - injection Heq as -> ->. by apply peek_poke_eq.
  - destruct Hrc, Hrc'. apply peek_poke_ne; (done || lia).
Qed.

(** Two 9x9 grids with the same cells are the same grid. *)
Lemma board_ext b1 b2 :
  wf b1 -> wf b2 ->
  (forall r c, in_grid r c -> peek b1 r c = peek b2 r c) -> b1 = b2.
Proof.
  intros Hwf1 Hwf2 Heq. apply list_eq. intros i.
  destruct (decide (i < 9)%nat) as [Hi|Hi].
  - assert (Hr : 0 <= Z.of_nat i < 9) by lia.
    destruct (wf_row b1 _ Hwf1 Hr) as (row1 & Hrow1 & Hl1).
    destruct (wf_row b2 _ Hwf2 Hr) as (row2 & Hrow2 & Hl2).
    rewrite Nat2Z.id in Hrow1, Hrow2. rewrite Hrow1, Hrow2. f_equal.
    apply list_eq. intros j.
    destruct (decide (j < 9)%nat) as [Hj|Hj].
    + assert (Hg : in_grid (Z.of_nat i) (Z.of_nat j)) by (split; lia).
      specialize (Heq _ _ Hg).
      destruct (wf_cell b1 _ _ Hwf1 Hg) as (r1 & Hr1 & _ & Hv1).
      destruct (wf_cell b2 _ _ Hwf2 Hg) as (r2 & Hr2 & _ & Hv2).
      rewrite Nat2Z.id in Hr1, Hr2, Hv1, Hv2.
      rewrite Hrow1 in Hr1. rewrite Hrow2 in Hr2.
      injection Hr1 as <-. injection Hr2 as <-.
      by rewrite Hv1, Hv2, Heq.
    + rewrite !lookup_ge_None_2 by lia. done.
  - destruct Hwf1 as [H1 _], Hwf2 as [H2 _].
    rewrite !lookup_ge_None_2 by lia. done.
Qed.

(** Storing back the value a cell holds leaves the grid as it is. *)
Lemma poke_peek b r c : wf b -> in_grid r c -> poke b r c (peek b r c) = b.
Proof.
  intros Hwf Hrc. apply board_ext; [by apply poke_wf|done|].
  intros r' c' Hrc'. rewrite peek_poke by done.
  case_decide as Heq; [|done]. by injection Heq as -> ->.
Qed.

Lemma poke_poke b r c v w :
  wf b -> in_grid r c -> poke (poke b r c v) r c w = poke b r c w.
Proof.
  intros Hwf Hrc. apply board_ext; [by do 2 apply poke_wf|by apply poke_wf|].
  intros r' c' Hrc'. rewrite !peek_poke by (done || by apply poke_wf).
  by case_decide.
Qed.

(** Placing a digit in an empty cell and taking it back restores the
    grid. *)
Lemma poke_undo b r c v :
  wf b -> in_grid r c -> peek b r c = 0 -> poke (poke b r c v) r c 0 = b.
Proof.
  intros Hwf Hrc H0. rewrite poke_poke by done. rewrite <- H0. by apply poke_peek.
Qed.

Lemma zeros_insert (row : list Z) j v :
  row !! j = Some 0 -> v <> 0 ->
  S (length (filter (fun x => x = 0) (<[j := v]> row)))
  = length (filter (fun x => x = 0) row).
Proof.
  revert j. induction row as [|x row IH]; intros j Hj Hv; [done|].
  destruct j as [|j]; simpl in *.
  - injection Hj as ->. rewrite filter_cons_False by done.
    by rewrite filter_cons_True by done.
  - rewrite !filter_cons. destruct (decide (x = 0)); simpl; rewrite <- (IH j); done.
Qed.

(** Filling an empty cell leaves one empty cell fewer. *)
Lemma empties_alter (b : Board) i row j v :
  b !! i = Some row -> row !! j = Some 0 -> v <> 0 ->
  S (empties (alter (fun row => <[j := v]> row) i b)) = empties b.
Proof.
  unfold empties. revert i. induction b as [|x b IH]; intros i Hi Hj Hv; [done|].
  destruct i as [|i]; simpl in *.
  - injection Hi as ->. rewrite <- (zeros_insert row j v) by done. lia.
  - specialize (IH i Hi Hj Hv). unfold fmap, alter in *. simpl in *. lia.
Qed.

Lemma empties_poke b r c v :
  wf b -> in_grid r c -> peek b r c = 0 -> v <> 0 ->
  S (empties (poke b r c v)) = empties b.
Proof.
  intros Hwf Hrc H0 Hv. destruct (wf_cell b r c Hwf Hrc) as (row & Hrow & Hlen & Hc).
  rewrite H0 in Hc. by apply (empties_alter b _ row).
Qed.

Lemma zeros_le (row : list Z) :
  (length (filter (fun x => x = 0%Z) row) <= length row)%nat.
Proof. apply length_filter. Qed.

(** A 9x9 grid has at most 81 empty cells. *)
Lemma empties_le_81 b : wf b -> (empties b <= 81)%nat.
Proof.
  intros [Hlen Hrows]. unfold empties.
  assert (H : forall l : Board, Forall (fun row => length row = 9%nat) l ->
            (sum_list ((fun row => length (filter (fun v => v = 0%Z) row)) <$> l)
             <= 9 * length l)%nat).
  { induction 1 as [|row l Hrow _ IH]; [simpl; lia|].
    rewrite fmap_cons. pose proof (zeros_le row).
    change (sum_list (?x :: ?xs)) with (x + sum_list xs)%nat.
    rewrite length_cons. lia. }
  specialize (H b Hrows). lia.
Qed.

Lemma copy_board_id b : copy_board b = b.
Proof. unfold copy_board. apply list_fmap_id. Qed.

End BoardFacts.

(** * Facts about [is_valid] and [find_empty] *)

Module ScanFacts.
Import PyFacts BoardFacts.

Ltac zdiv := Z.to_euclidean_division_equations; lia.

Lemma box_origin r i : 0 <= r < 9 -> 0 <= i < 3 -> 0 <= i + 3 * (r / 3) < 9.
Proof. intros. zdiv. Qed.

Lemma box_same r i : 0 <= i < 3 -> (i + 3 * (r / 3)) / 3 = r / 3.
Proof. intros. zdiv. Qed.

Lemma box_offset r r' :
  r / 3 = r' / 3 -> 0 <= r' - 3 * (r / 3) < 3 /\ (r' - 3 * (r / 3)) + 3 * (r / 3) = r'.
Proof. intros. zdiv. Qed.

(** On a 9x9 grid [is_valid] never raises and computes [conflictb]. *)
Lemma is_valid_conflictb b r c v :
  wf b -> in_grid r c -> is_valid b r c v = Ok (negb (conflictb b r c v)).
Proof.
  intros Hwf [Hr Hc]. unfold is_valid, conflictb.
  rewrite (any_in_existsb _ (fun x => peek b r x =? v)); last first.
  { intros x Hx%range_elem. by rewrite cell_peek. }
  cbn [Py.bind]. destruct (existsb (fun x => peek b r x =? v) (range 0 9)); [done|].
  rewrite (any_in_existsb _ (fun x => peek b x c =? v)); last first.
  { intros x Hx%range_elem. by rewrite cell_peek. }
  cbn [Py.bind]. destruct (existsb (fun x => peek b x c =? v) (range 0 9)); [done|].
  rewrite (any_in_existsb _
    (fun i => existsb (fun j => peek b (i + 3 * (r / 3)) (j + 3 * (c / 3)) =? v)
                      (range 0 3))); last first.
  { intros i Hi%range_elem. apply any_in_existsb.
    intros j Hj%range_elem.
    rewrite cell_peek; [done|done|]. split; by apply box_origin. }
  cbn [Py.bind]. by destruct (existsb _ (range 0 3)).
Qed.

(** [conflictb] holds exactly when some cell of the row, column or box of
    [(r, c)] holds [v]. *)
Lemma conflictb_true b r c v :
  in_grid r c ->
  conflictb b r c v = true <->
  exists r' c', in_grid r' c' /\ same_unit r c r' c' /\ peek b r' c' = v.
Proof.
  intros [Hr Hc]. unfold conflictb. rewrite !orb_true_iff, !existsb_elem. split.
  - intros [[(x & Hx%range_elem & Hv%Z.eqb_eq)|(x & Hx%range_elem & Hv%Z.eqb_eq)]
           |(i & Hi%range_elem & (j & Hj%range_elem & Hv%Z.eqb_eq)%existsb_elem)].
    + exists r, x. split_and!; try done. by left.
    + exists x, c. split_and!; try done. right. by left.
    + exists (i + 3 * (r / 3)), (j + 3 * (c / 3)). split_and!; try done.
      * split; by apply box_origin.
      * right. right. by rewrite !box_same.
  - intros (r' & c' & [Hr' Hc'] & [<-|[<-|[Hbr Hbc]]] & Hv).
    + left. left. exists c'. split; [by apply range_elem|by apply Z.eqb_eq].
    + left. right. exists r'. split; [by apply range_elem|by apply Z.eqb_eq].
    + right. destruct (box_offset _ _ Hbr) as [Hi Hi'].
      destruct (box_offset _ _ Hbc) as [Hj Hj'].
      exists (r' - 3 * (r / 3)). split; [by apply range_elem|].
      apply existsb_elem. exists (c' - 3 * (c / 3)).
      split; [by apply range_elem|]. rewrite Hi', Hj'. by apply Z.eqb_eq.
Qed.

Lemma conflictb_false b r c v :
  in_grid r c ->
  conflictb b r c v = false <->
  forall r' c', in_grid r' c' -> same_unit r c r' c' -> peek b r' c' <> v.
Proof.
  intros Hrc. rewrite <- not_true_iff_false, conflictb_true by done. split.
  - intros Hno r' c' Hg Hu Hv. apply Hno. by exists r', c'.
  - intros Hall (r' & c' & Hg & Hu & Hv). by eapply Hall.
Qed.

(** The elements before [x] in a range are the smaller ones. *)
Lemma range_split lo hi pre x post :
  range lo hi = pre ++ x :: post ->
  lo <= x < hi /\ forall y, lo <= y < x -> y ∈ pre.
Proof.
  intros Heq.
  assert (Hx : range lo hi !! length pre = Some x).
  { rewrite Heq. by rewrite list_lookup_middle. }
  unfold range in *. apply lookup_seqZ in Hx as [-> Hlt]. split; [lia|].
  intros y Hy.
  assert (Hy' : seqZ lo (hi - lo) !! Z.to_nat (y - lo) = Some y).
  { apply lookup_seqZ. lia. }
  rewrite Heq, lookup_app_l in Hy' by lia.
  by eapply list_elem_of_lookup_2.
Qed.

Lemma row_scan_cases b i :
  wf b -> 0 <= i < 9 ->
  (row_scan b i = Ok None /\ forall j, 0 <= j < 9 -> peek b i j <> 0) \/
  (exists j, row_scan b i = Ok (Some (i, j)) /\ 0 <= j < 9 /\ peek b i j = 0 /\
             forall j', 0 <= j' < j -> peek b i j' <> 0).
Proof.
  intros Hwf Hi. unfold row_scan.
  destruct (first_in_cases
    (fun j => v <- cell b i j ;; if v =? 0 then Ok (Some (i, j)) else Ok None)
    (fun j => if peek b i j =? 0 then Some (i, j) else None) (range 0 9))
    as [[Hf Hall]|(pre & j & post & p & Heq & Hpre & Hj & Hf)].
  - intros j Hj%range_elem. rewrite cell_peek by done. cbn [Py.bind].
    by destruct (peek b i j =? 0).
  - left. split; [done|]. intros j Hj.
    specialize (Hall j (proj2 (range_elem _ _ _) Hj)).
    destruct (Z.eqb_spec (peek b i j) 0); done.
  - right. destruct (range_split _ _ _ _ _ Heq) as [Hjr Hlt].
    destruct (Z.eqb_spec (peek b i j) 0) as [H0|]; [|done].
    simplify_eq. exists j. split_and!; try (done || lia).
    intros j' Hj'. specialize (Hpre j' (Hlt j' Hj')).
    destruct (Z.eqb_spec (peek b i j') 0); done.
Qed.

(** [find_empty] on a 9x9 grid: either the grid is full, or the result is
    its first empty cell in row-major order. *)
Lemma find_empty_cases b :
  wf b ->
  (find_empty b = Ok None /\ full b) \/
  (exists r c, find_empty b = Ok (Some (r, c)) /\ in_grid r c /\ peek b r c = 0 /\
     forall r' c', in_grid r' c' -> r' < r \/ (r' = r /\ c' < c) -> peek b r' c' <> 0).
Proof.
  intros Hwf. change (find_empty b) with (first_in (row_scan b) (range 0 9)).
  destruct (first_in_cases (row_scan b)
    (fun i => match row_scan b i with Ok p => p | Raise _ => None end) (range 0 9))
    as [[Hf Hall]|(pre & i & post & p & Heq & Hpre & Hi & Hf)].
  - intros i Hi%range_elem.
    by destruct (row_scan_cases b i Hwf Hi) as [[-> _]|(j & -> & _)].
  - left. split; [done|]. intros r c [Hr Hc].
    specialize (Hall r (proj2 (range_elem _ _ _) Hr)).
    destruct (row_scan_cases b r Hwf Hr) as [[_ Hnz]|(j & Hs & _)].
    + by apply Hnz.
    + by rewrite Hs in Hall.
  - right. destruct (range_split _ _ _ _ _ Heq) as [Hir Hlt].
    destruct (row_scan_cases b i Hwf Hir) as [[Hs _]|(j & Hs & Hj & H0 & Hbefore)];
      rewrite Hs in Hi; [done|].
    simplify_eq. exists i, j. split; [done|]. split; [done|]. split; [done|].
    intros r' c' [Hr' Hc'] [Hlt'|[-> Hlt']].
    + specialize (Hpre r' (Hlt r' ltac:(lia))).
      destruct (row_scan_cases b r' Hwf Hr') as [[_ Hnz]|(j' & Hs' & _)].
      * by apply Hnz.
      * by rewrite Hs' in Hpre.
    + apply Hbefore. lia.
Qed.

End ScanFacts.

(** * Completed grids and consistent clues *)

Module GridFacts.
Import PyFacts BoardFacts ScanFacts.

Lemma range_NoDup lo hi : NoDup (range lo hi).
Proof. apply NoDup_seqZ. Qed.

Lemma range_length lo hi : length (range lo hi) = Z.to_nat (hi - lo).
Proof. apply length_seqZ. Qed.

Lemma row_cells_elem r p : p ∈ row_cells r <-> p.1 = r /\ 0 <= p.2 < 9.
Proof.
  unfold row_cells. rewrite list_elem_of_fmap. split.
  - intros (c & -> & Hc%range_elem). done.
  - intros [<- Hc]. exists p.2. split; [by destruct p|by apply range_elem].
Qed.

Lemma col_cells_elem c p : p ∈ col_cells c <-> p.2 = c /\ 0 <= p.1 < 9.
Proof.
  unfold col_cells. rewrite list_elem_of_fmap. split.
  - intros (r & -> & Hr%range_elem). done.
  - intros [<- Hr]. exists p.1. split; [by destruct p|by apply range_elem].
Qed.

Lemma box_cells_elem br bc p :
  p ∈ box_cells br bc <->
  3 * br <= p.1 < 3 * br + 3 /\ 3 * bc <= p.2 < 3 * bc + 3.
Proof.
  unfold box_cells. rewrite list_elem_of_bind. split.
  - intros (i & (j & -> & Hj%range_elem)%list_elem_of_fmap & Hi%range_elem).
    simpl. lia.
  - intros [Hr Hc]. exists (p.1 - 3 * br). split; [|apply range_elem; lia].
    apply list_elem_of_fmap. exists (p.2 - 3 * bc).
    split; [|apply range_elem; lia]. destruct p as [r c]. simpl. f_equal; lia.
Qed.

Lemma box_cells_NoDup br bc : NoDup (box_cells br bc).
Proof.
  unfold box_cells. apply NoDup_bind.
  - intros i1 i2 p _ _ (j1 & -> & _)%list_elem_of_fmap (j2 & Heq & _)%list_elem_of_fmap.
    injection Heq as Hi _. lia.
  - intros i _. apply NoDup_fmap_2; [|apply range_NoDup].
    intros j1 j2 Heq. injection Heq as Hj. lia.
  - apply range_NoDup.
Qed.

(** The positions of a unit are nine distinct cells of the grid, any two of
    which share that unit. *)
Lemma unit_NoDup ps : is_unit ps -> NoDup ps.
Proof.
  intros [(r & _ & ->)|[(c & _ & ->)|(br & bc & _ & _ & ->)]].
  - apply NoDup_fmap_2; [|apply range_NoDup]. intros x y Heq. by injection Heq.
  - apply NoDup_fmap_2; [|apply range_NoDup]. intros x y Heq. by injection Heq.
  - apply box_cells_NoDup.
Qed.

Lemma unit_length ps : is_unit ps -> length ps = 9%nat.
Proof.
  by intros [(r & _ & ->)|[(c & _ & ->)|(br & bc & _ & _ & ->)]].
Qed.

Lemma unit_in_grid ps p : is_unit ps -> p ∈ ps -> in_grid p.1 p.2.
Proof.
  intros [(r & Hr & ->)|[(c & Hc & ->)|(br & bc & Hbr & Hbc & ->)]].
  - intros [-> H2]%row_cells_elem. done.
  - intros [-> H1]%col_cells_elem. done.
  - intros [H1 H2]%box_cells_elem. split; lia.
Qed.

Lemma unit_same ps p q :
  is_unit ps -> p ∈ ps -> q ∈ ps -> same_unit p.1 p.2 q.1 q.2.
Proof.
  intros [(r & Hr & ->)|[(c & Hc & ->)|(br & bc & Hbr & Hbc & ->)]].
  - intros [Hp _]%row_cells_elem [Hq _]%row_cells_elem. left. congruence.
  - intros [Hp _]%col_cells_elem [Hq _]%col_cells_elem. right. left. congruence.
  - intros [Hp1 Hp2]%box_cells_elem [Hq1 Hq2]%box_cells_elem.
    right. right. split; zdiv.
Qed.

(** Two cells that share a row, a column or a box lie in a common unit. *)
Lemma same_unit_shared r c r' c' :
  in_grid r c -> in_grid r' c' -> same_unit r c r' c' ->
  exists ps, is_unit ps /\ (r, c) ∈ ps /\ (r', c') ∈ ps.
Proof.
  intros [Hr Hc] [Hr' Hc'] [<-|[<-|[Hbr Hbc]]].
  - exists (row_cells r). split_and!.
    + left. by exists r.
    + by apply row_cells_elem.
    + by apply row_cells_elem.
  - exists (col_cells c). split_and!.
    + right. left. by exists c.
    + by apply col_cells_elem.
    + by apply col_cells_elem.
  - exists (box_cells (r / 3) (c / 3)). split_and!.
    + right. right. exists (r / 3), (c / 3). split_and!; try done; zdiv.
    + apply box_cells_elem. simpl. split; zdiv.
    + apply box_cells_elem. simpl. split; zdiv.
Qed.

Lemma solved_unit S ps : solved S -> is_unit ps -> values S ps ≡ₚ range 1 10.
Proof.
  intros (_ & Hrows & Hcols & Hboxes)
         [(r & Hr & ->)|[(c & Hc & ->)|(br & bc & Hbr & Hbc & ->)]]; auto.
Qed.

Lemma solved_wf S : solved S -> wf S.
Proof. by intros [H _]. Qed.

(** Every cell of a completed grid holds a digit 1..9. *)
Lemma solved_digit S r c : solved S -> in_grid r c -> 1 <= peek S r c <= 9.
Proof.
  intros HS [Hr Hc].
  assert (Hu : is_unit (row_cells r)) by (left; by exists r).
  assert (Hin : peek S r c ∈ values S (row_cells r)).
  { unfold values. apply list_elem_of_fmap. exists (r, c).
    split; [done|]. by apply row_cells_elem. }
  rewrite (solved_unit S _ HS Hu) in Hin. apply range_elem in Hin. lia.
Qed.

(** Two different cells of one unit of a completed grid hold different
    digits. *)
Lemma solved_distinct S r c r' c' :
  solved S -> in_grid r c -> in_grid r' c' -> (r', c') <> (r, c) ->
  same_unit r c r' c' -> peek S r' c' <> peek S r c.
Proof.
  intros HS Hg Hg' Hne Hsame Heq.
  destruct (same_unit_shared _ _ _ _ Hg Hg' Hsame) as (ps & Hu & Hp & Hp').
  assert (Hnd : NoDup (values S ps)).
  { rewrite (solved_unit S ps HS Hu). apply range_NoDup. }
  apply list_elem_of_lookup in Hp as [i Hi]. apply list_elem_of_lookup in Hp' as [j Hj].
  assert (Hvi : values S ps !! i = Some (peek S r c)).
  { unfold values. by rewrite list_lookup_fmap, Hi. }
  assert (Hvj : values S ps !! j = Some (peek S r c)).
  { unfold values. rewrite list_lookup_fmap, Hj. simpl. by rewrite Heq. }
  pose proof (NoDup_lookup _ _ _ _ Hnd Hvi Hvj) as <-.
  rewrite Hi in Hj. by injection Hj as <- <-.
Qed.

Lemma solved_full S : solved S -> full S.
Proof. intros HS r c Hg. pose proof (solved_digit S r c HS Hg). lia. Qed.

Lemma solved_consistent S : solved S -> consistent S.
Proof.
  intros HS. split; [by apply solved_wf|]. intros r c Hg _. split.
  - by apply solved_digit.
  - intros r' c' Hg' Hne Hsame. by apply solved_distinct.
Qed.

(** A full grid with consistent clues is a completed valid grid. *)
Lemma full_consistent_unit b ps :
  full b -> consistent b -> is_unit ps -> values b ps ≡ₚ range 1 10.
Proof.
  intros Hfull [Hwf Hcons] Hu.
  apply submseteq_length_Permutation.
  - apply NoDup_submseteq.
    + unfold values. apply NoDup_fmap_2_strong; [|by apply unit_NoDup].
      intros p q Hp Hq Heq. destruct (decide (p = q)) as [|Hne]; [done|].
      exfalso. pose proof (unit_in_grid _ _ Hu Hp) as Hgp.
      pose proof (unit_in_grid _ _ Hu Hq) as Hgq.
      destruct (Hcons p.1 p.2 Hgp (Hfull _ _ Hgp)) as [_ Hd].
      apply (Hd q.1 q.2 Hgq); [|by apply unit_same with ps|done].
      intros Hpq. apply Hne. destruct p, q. simpl in *. congruence.
    + intros v (p & -> & Hp)%list_elem_of_fmap.
      pose proof (unit_in_grid _ _ Hu Hp) as Hgp.
      destruct (Hcons p.1 p.2 Hgp (Hfull _ _ Hgp)) as [Hd _].
      apply range_elem. lia.
  - unfold values. rewrite length_fmap, (unit_length ps Hu). by rewrite range_length.
Qed.

Lemma full_consistent_solved b : full b -> consistent b -> solved b.
Proof.
  intros Hfull Hcons. split; [by destruct Hcons|]. split_and!.
  - intros r Hr. apply full_consistent_unit; try done. left. by exists r.
  - intros c Hc. apply full_consistent_unit; try done. right. left. by exists c.
  - intros br bc Hbr Hbc. apply full_consistent_unit; try done.
    right. right. by exists br, bc.
Qed.

End GridFacts.

(** * The backtracking search *)

Module SolverFacts.
Import PyFacts BoardFacts ScanFacts GridFacts.

Lemma same_unit_sym r c r' c' : same_unit r c r' c' -> same_unit r' c' r c.
Proof. intros [->|[->|[H1 H2]]]; [by left|by right; left|by right; right]. Qed.

Lemma extends_refl b : extends b b.
Proof. by intros r c _ _. Qed.

Lemma extends_trans b1 b2 b3 : extends b1 b2 -> extends b2 b3 -> extends b1 b3.
Proof.
  intros H12 H23 r c Hg Hnz. rewrite <- (H12 r c Hg Hnz).
  apply H23; [done|]. by rewrite (H12 r c Hg Hnz).
Qed.

Lemma extends_poke b r c v :
  wf b -> in_grid r c -> peek b r c = 0 -> extends b (poke b r c v).
Proof.
  intros Hwf Hg H0 r' c' Hg' Hnz. rewrite peek_poke by done.
  case_decide as Heq; [|done]. injection Heq as -> ->. done.
Qed.

(** Placing a digit that [is_valid] accepts keeps the clues consistent. *)
Lemma place_consistent b r c v :
  consistent b -> in_grid r c -> peek b r c = 0 -> 1 <= v <= 9 ->
  conflictb b r c v = false -> consistent (poke b r c v).
Proof.
  intros [Hwf Hcons] Hg H0 Hv Hcf. rewrite conflictb_false in Hcf by done.
  split; [by apply poke_wf|]. intros r1 c1 Hg1.
  rewrite peek_poke by done. case_decide as Heq1.
  - injection Heq1 as -> ->. intros _. split; [done|].
    intros r' c' Hg' Hne Hsame. rewrite peek_poke by done.
    rewrite decide_False by done. by apply Hcf.
  - intros Hnz. destruct (Hcons r1 c1 Hg1 Hnz) as [Hd Hpeers]. split; [done|].
    intros r' c' Hg' Hne Hsame. rewrite peek_poke by done. case_decide as Heq'.
    + injection Heq' as -> ->. intros ->.
      by apply (Hcf r1 c1 Hg1 (same_unit_sym _ _ _ _ Hsame)).
    + by apply Hpeers.
Qed.

(** A completion tells which digit [is_valid] accepts at an empty cell, and
    stays a completion once that digit is placed. *)
Lemma completion_valid b S r c :
  wf b -> completion b S -> in_grid r c -> peek b r c = 0 ->
  conflictb b r c (peek S r c) = false.
Proof.
  intros Hwf [HS Hext] Hg H0. apply conflictb_false; [done|].
  intros r' c' Hg' Hsame Heq.
  pose proof (solved_digit S r c HS Hg) as Hd.
  assert (Hnz : peek b r' c' <> 0) by lia.
  assert (Hne : (r', c') <> (r, c)).
  { intros Hrc. injection Hrc as -> ->. lia. }
  apply (solved_distinct S r c r' c' HS Hg Hg' Hne Hsame).
  by rewrite (Hext r' c' Hg' Hnz).
Qed.

Lemma completion_place b S r c :
  wf b -> completion b S -> in_grid r c ->
  completion (poke b r c (peek S r c)) S.
Proof.
  intros Hwf [HS Hext] Hg. split; [done|].
  intros r' c' Hg'. rewrite peek_poke by done. case_decide as Heq.
  - by injection Heq as -> ->.
  - by apply Hext.
Qed.

(** The only completion of a full grid is the grid itself. *)
Lemma completion_full b S : wf b -> full b -> completion b S -> S = b.
Proof.
  intros Hwf Hfull [HS Hext]. apply board_ext; [by apply solved_wf|done|].
  intros r c Hg. apply Hext; [done|]. by apply Hfull.
Qed.

(** A grid that has a completion has consistent clues. *)
Lemma completion_consistent b S : wf b -> completion b S -> consistent b.
Proof.
  intros Hwf [HS Hext]. split; [done|]. intros r c Hg Hnz.
  pose proof (Hext r c Hg Hnz) as Hrc. split.
  - rewrite <- Hrc. by apply solved_digit.
  - intros r' c' Hg' Hne Hsame Heq.
    assert (Hnz' : peek b r' c' <> 0) by congruence.
    apply (solved_distinct S r c r' c' HS Hg Hg' Hne Hsame).
    rewrite (Hext r' c' Hg' Hnz'). congruence.
Qed.

(** The loop over the candidate digits, given what the recursive calls
    do. *)
Lemma try_values_spec depth b r c nums :
  (forall b1, wf b1 -> (empties b1 < depth)%nat -> solve_post depth b1) ->
  wf b -> in_grid r c -> peek b r c = 0 -> (empties b <= depth)%nat ->
  Forall (fun n => 1 <= n <= 9) nums ->
  (exists b', try_values (solve_sudoku_depth depth) r c nums b = Ok (true, b')
              /\ found b b') \/
  (try_values (solve_sudoku_depth depth) r c nums b = Ok (false, b) /\
   forall S, completion b S -> peek S r c ∉ nums).
Proof.
  intros IH Hwf Hg H0 Hdepth Hnums.
  induction Hnums as [|n nums Hn _ IHnums].
  - right. split; [done|]. intros S _. apply not_elem_of_nil.
  - cbn [try_values]. rewrite is_valid_conflictb by done. cbn [Py.bind].
    destruct (conflictb b r c n) eqn:Hcf; cbn [negb].
    + destruct IHnums as [?|[Heq Hno]]; [by left|]. right. split; [done|].
      intros S HS [Hn'|Hin]%elem_of_cons; [|by eapply Hno].
      pose proof (completion_valid b S r c Hwf HS Hg H0) as Hv.
      rewrite Hn' in Hv. congruence.
    + rewrite set_cell_poke by done. cbn [Py.bind].
      assert (Hwf1 : wf (poke b r c n)) by by apply poke_wf.
      assert (Hlt : (empties (poke b r c n) < depth)%nat).
      { pose proof (empties_poke b r c n Hwf Hg H0 ltac:(lia)). lia. }
      destruct (IH _ Hwf1 Hlt) as [(b' & -> & Hw' & Hf' & He' & Hc')|[-> Hno1]];
        cbn [Py.bind].
      * left. exists b'. split; [done|]. split_and!; try done.
        -- eapply extends_trans; [by apply extends_poke|done].
        -- intros Hcons. by apply Hc', place_consistent.
      * rewrite set_cell_poke by done. cbn [Py.bind].
        rewrite poke_undo by done.
        destruct IHnums as [?|[Heq Hno]]; [by left|]. right. split; [done|].
        intros S HS [Hn'|Hin]%elem_of_cons; [|by eapply Hno].
        apply (Hno1 S). rewrite <- Hn'. by apply completion_place.
Qed.

(** The solver on a 9x9 grid, with a stack deeper than the number of empty
    cells: it returns true with a full grid that keeps the clues, or it
    returns false, has restored the grid, and the grid has no completion. *)
Lemma solve_depth_spec depth b :
  wf b -> (empties b < depth)%nat -> solve_post depth b.
Proof.
  revert b. induction depth as [|depth IH]; intros b Hwf Hlt; [lia|].
  unfold solve_post. cbn [solve_sudoku_depth].
  destruct (find_empty_cases b Hwf) as [[-> Hfull]|(r & c & -> & Hg & H0 & _)];
    cbn [Py.bind].
  - left. exists b. split; [done|]. split_and!; (done || apply extends_refl).
  - destruct (try_values_spec depth b r c (range 1 10) IH Hwf Hg H0 ltac:(lia))
      as [?|[Heq Hno]]; [|by left|].
    { apply Forall_forall. intros n Hn%range_elem. lia. }
    right. split; [done|]. intros S HS. apply (Hno S HS).
    apply range_elem. destruct HS as [HS _].
    pose proof (solved_digit S r c HS Hg). lia.
Qed.

Lemma solve_spec b : wf b -> solve_post (S (empties b)) b.
Proof. intros Hwf. apply solve_depth_spec; [done|lia]. Qed.

(** A successful call leaves a completion of the grid it started from,
    provided the clues were consistent. *)
Lemma found_completion b b' : consistent b -> found b b' -> completion b b'.
Proof.
  intros Hcons (Hwf' & Hfull' & Hext & Hc'). split; [|done].
  apply full_consistent_solved; auto.
Qed.

(** A deeper stack does not change the result. *)
Lemma solve_depth_stable depth b :
  wf b -> (empties b < depth)%nat ->
  solve_sudoku_depth depth b = solve_sudoku b.
Proof.
  intros Hwf Hlt. unfold solve_sudoku.
  enough (Hmono : forall d1 d2 b res, wf b -> (empties b < d1)%nat -> (d1 <= d2)%nat ->
            solve_sudoku_depth d1 b = res -> solve_sudoku_depth d2 b = res).
  { eapply (Hmono (S (empties b)) depth); (done || lia). }
  clear. induction d1 as [|d1 IH]; intros d2 b res Hwf Hlt Hle; [lia|].
  destruct d2 as [|d2]; [lia|]. cbn [solve_sudoku_depth].
  destruct (find_empty_cases b Hwf) as [[-> Hfull]|(r & c & -> & Hg & H0 & _)];
    cbn [Py.bind]; [done|].
  assert (Hd : (empties b <= d1)%nat) by lia. clear Hlt.
  assert (Hall : Forall (fun n => n <> 0) (range 1 10)).
  { apply Forall_forall. intros n Hn%range_elem. lia. }
  revert res. induction Hall as [|n nums Hn _ IHnums]; intros res; [done|].
  cbn [try_values]. rewrite is_valid_conflictb by done. cbn [Py.bind].
  destruct (conflictb b r c n); cbn [negb]; [apply IHnums|].
  rewrite set_cell_poke by done. cbn [Py.bind].
  assert (Hwf1 : wf (poke b r c n)) by by apply poke_wf.
  assert (Hlt : (empties (poke b r c n) < d1)%nat).
  { pose proof (empties_poke b r c n Hwf Hg H0 Hn). lia. }
  rewrite (IH d2 _ _ Hwf1 Hlt ltac:(lia) eq_refl).
  destruct (solve_depth_spec d1 _ Hwf1 Hlt) as [(b' & -> & _)|[-> _]];
    cbn [Py.bind]; [done|].
  rewrite set_cell_poke by done. cbn [Py.bind]. rewrite poke_undo by done.
  apply IHnums.
Qed.

(** The exhaustive search lists every completion. *)
Lemma all_solutions_complete depth b S :
  wf b -> (empties b < depth)%nat -> completion b S -> S ∈ all_solutions depth b.
Proof.
  revert b. induction depth as [|depth IH]; intros b Hwf Hlt HS; [lia|].
  cbn [all_solutions].
  destruct (find_empty_cases b Hwf) as [[-> Hfull]|(r & c & -> & Hg & H0 & _)].
  - apply list_elem_of_singleton. by apply completion_full.
  - apply list_elem_of_bind. exists (peek S r c). split.
    + rewrite is_valid_conflictb, set_cell_poke by done.
      rewrite (completion_valid b S r c) by done. cbn [negb].
      destruct HS as [HS Hext]. pose proof (solved_digit S r c HS Hg) as Hd.
      apply IH.
      * by apply poke_wf.
      * pose proof (empties_poke b r c (peek S r c) Hwf Hg H0 ltac:(lia)). lia.
      * by apply completion_place.
    + apply range_elem. destruct HS as [HS _].
      pose proof (solved_digit S r c HS Hg). lia.
Qed.

End SolverFacts.

(** * Checking concrete grids by evaluation *)

Module CheckFacts.
Import PyFacts BoardFacts ScanFacts GridFacts SolverFacts.

Lemma forallb_range (f : Z -> bool) lo hi :
  forallb f (range lo hi) = true <-> forall x, lo <= x < hi -> f x = true.
Proof.
  rewrite forallb_forall. split.
  - intros H x Hx. apply H, list_elem_of_In, range_elem, Hx.
  - intros H x Hx%list_elem_of_In%range_elem. by apply H.
Qed.

Lemma all_cells_spec f :
  all_cells f = true <-> forall r c, in_grid r c -> f r c = true.
Proof.
  unfold all_cells. rewrite forallb_range. split.
  - intros H r c [Hr Hc]. specialize (H r Hr). rewrite forallb_range in H. auto.
  - intros H r Hr. apply forallb_range. intros c Hc. by apply H.
Qed.

Lemma sorted_is_1_to_9_perm l : sorted_is_1_to_9 l = true -> l ≡ₚ range 1 10.
Proof.
  unfold sorted_is_1_to_9. intros H%bool_decide_eq_true.
  rewrite <- H. symmetry. apply merge_sort_Permutation.
Qed.

Lemma solvedb_solved b : solvedb b = true -> solved b.
Proof.
  unfold solvedb. rewrite !andb_true_iff, !forallb_range.
  intros [[[Hwf Hrows] Hcols] Hboxes]. split; [by apply wfb_wf|]. split_and!.
  - intros r Hr. by apply sorted_is_1_to_9_perm, Hrows.
  - intros c Hc. by apply sorted_is_1_to_9_perm, Hcols.
  - intros br bc Hbr Hbc. apply sorted_is_1_to_9_perm.
    specialize (Hboxes br Hbr). rewrite forallb_range in Hboxes. by apply Hboxes.
Qed.

Lemma extendsb_extends b S : extendsb b S = true -> extends b S.
Proof.
  unfold extendsb. rewrite all_cells_spec. intros H r c Hg Hnz.
  specialize (H r c Hg). apply orb_true_iff in H as [H%Z.eqb_eq|H%Z.eqb_eq]; done.
Qed.

Lemma completionb_completion b S : completionb b S = true -> completion b S.
Proof.
  unfold completionb. rewrite andb_true_iff. intros [H1 H2].
  split; [by apply solvedb_solved|by apply extendsb_extends].
Qed.

Lemma same_unitb_spec r c r' c' : same_unitb r c r' c' = true <-> same_unit r c r' c'.
Proof.
  unfold same_unitb, same_unit.
  rewrite !orb_true_iff, andb_true_iff, !Z.eqb_eq. tauto.
Qed.

Lemma consistentb_consistent b : consistentb b = true -> consistent b.
Proof.
  unfold consistentb. rewrite andb_true_iff, all_cells_spec.
  intros [Hwf H]. split; [by apply wfb_wf|]. intros r c Hg Hnz.
  specialize (H r c Hg). apply orb_true_iff in H as [H%Z.eqb_eq|H]; [done|].
  rewrite !andb_true_iff, all_cells_spec in H. destruct H as [[H1 H9] Hpeers].
  split; [lia|]. intros r' c' Hg' Hne Hsame Heq.
  specialize (Hpeers r' c' Hg'). rewrite !orb_true_iff, !negb_true_iff in Hpeers.
  destruct Hpeers as [[Hpos|Hu]|Hv].
  - apply andb_true_iff in Hpos as [->%Z.eqb_eq ->%Z.eqb_eq]. done.
  - apply same_unitb_spec in Hsame. congruence.
  - apply Z.eqb_neq in Hv. done.
Qed.

(** A grid whose exhaustive search lists one completion has no other. *)
Lemma unique_by_search depth b S :
  wf b -> (empties b < depth)%nat -> all_solutions depth b = [S] ->
  forall S', completion b S' -> S' = S.
Proof.
  intros Hwf Hlt Hall S' HS'.
  pose proof (all_solutions_complete depth b S' Hwf Hlt HS') as Hin.
  rewrite Hall in Hin. by apply list_elem_of_singleton in Hin.
Qed.

(** A grid whose exhaustive search lists nothing has no completion. *)
Lemma none_by_search depth b :
  wf b -> (empties b < depth)%nat -> all_solutions depth b = [] ->
  forall S, ~ completion b S.
Proof.
  intros Hwf Hlt Hall S HS.
  pose proof (all_solutions_complete depth b S Hwf Hlt HS) as Hin.
  rewrite Hall in Hin. by apply elem_of_nil in Hin.
Qed.

Lemma leadsb_spec b r c v : leadsb b r c v = true <-> leads_to_completion b r c v.
Proof.
  unfold leadsb, leads_to_completion. split.
  - destruct (is_valid b r c v) as [[|]|]; try done.
    destruct (set_cell b r c v) as [b1|]; try done.
    destruct (solve_sudoku b1) as [[[|] S]|] eqn:Hs; try done.
    intros _. split; [done|]. by exists b1, S.
  - intros [-> (b1 & S & -> & ->)]. done.
Qed.

End CheckFacts.

(** * The specification of the solver *)

Import PyFacts BoardFacts ScanFacts GridFacts SolverFacts CheckFacts.

Lemma occurs_conflictb board r c v :
  wf board -> in_grid r c ->
  (in_row board r v \/ in_col board c v \/ in_box board r c v) <->
  conflictb board r c v = true.
Proof.
  intros Hwf [Hr Hc]. unfold conflictb, in_row, in_col, in_box.
  rewrite !orb_true_iff, !existsb_elem. split.
  - intros [(x & Hx & Hv)|[(x & Hx & Hv)|(i & j & Hi & Hj & Hv)]].
    + left. left. exists x. split; [by apply range_elem|].
      rewrite cell_peek in Hv by done. apply Z.eqb_eq. congruence.
    + left. right. exists x. split; [by apply range_elem|].
      rewrite cell_peek in Hv by done. apply Z.eqb_eq. congruence.
    + right. exists i. split; [by apply range_elem|]. apply existsb_elem.
      exists j. split; [by apply range_elem|].
      rewrite (Z.add_comm _ i), (Z.add_comm _ j) in Hv.
      rewrite cell_peek in Hv by (done || split; by apply box_origin).
      apply Z.eqb_eq. congruence.
  - intros [[(x & Hx%range_elem & Hv%Z.eqb_eq)|(x & Hx%range_elem & Hv%Z.eqb_eq)]
           |(i & Hi%range_elem & (j & Hj%range_elem & Hv%Z.eqb_eq)%existsb_elem)].
    + left. exists x. split; [done|]. rewrite cell_peek by done. by f_equal.
    + right. left. exists x. split; [done|]. rewrite cell_peek by done. by f_equal.
    + right. right. exists i, j. split_and!; try lia.
      rewrite (Z.add_comm _ i), (Z.add_comm _ j).
      rewrite cell_peek by (done || split; by apply box_origin). by f_equal.
Qed.

(** C2: on a 9x9 grid, for a row and a column in [0,8], [is_valid] returns
    false exactly when the value already occurs in the row, in the column or
    in the 3x3 box with origin (3*(r//3), 3*(c//3)), and true otherwise; it
    never raises, and being a function of the grid that returns only a boolean
    it leaves the grid as it is.  Hence on a completed valid grid it returns
    false for every digit 1..9 (each occurs in every row) and true for any
    other value. *)
Theorem is_valid_iff_occurs board r c v :
  wf board -> 0 <= r <= 8 -> 0 <= c <= 8 ->
  (is_valid board r c v = Ok false <->
     in_row board r v \/ in_col board c v \/ in_box board r c v) /\
  (is_valid board r c v = Ok true <->
     ~ (in_row board r v \/ in_col board c v \/ in_box board r c v)) /\
  (solved board -> 1 <= v <= 9 -> is_valid board r c v = Ok false) /\
  (solved board -> ~ 1 <= v <= 9 -> is_valid board r c v = Ok true).
Proof.
  intros Hwf Hr Hc. assert (Hg : in_grid r c) by (split; lia).
  rewrite is_valid_conflictb by done.
  rewrite (occurs_conflictb board r c v Hwf Hg). split_and!.
  - destruct (conflictb board r c v); simpl; intuition congruence.
  - destruct (conflictb board r c v); simpl; intuition congruence.
  - intros HS Hv. replace (conflictb board r c v) with true; [done|].
    symmetry. apply conflictb_true; [done|].
    assert (Hin : v ∈ values board (row_cells r)).
    { rewrite (solved_unit board (row_cells r) HS); [by apply range_elem; lia|].
      left. exists r. split; [lia|done]. }
    apply list_elem_of_fmap in Hin as ([r' c'] & Hv' & [Hr' Hc']%row_cells_elem).
    simpl in *. subst r'. exists r, c'.
    split; [split; lia|]. split; [by left|]. done.
  - intros HS Hv. replace (conflictb board r c v) with false; [done|].
    symmetry. apply conflictb_false; [done|]. intros r' c' Hg' _ Heq.
    pose proof (solved_digit board r' c' HS Hg'). lia.
Qed.

Lemma is_valid_iff_occurs_sample :
  (is_valid mock_extract_sudoku 0 2 4 = Ok false <->
     in_row mock_extract_sudoku 0 4 \/ in_col mock_extract_sudoku 2 4
     \/ in_box mock_extract_sudoku 0 2 4) /\
  (is_valid mock_extract_sudoku 0 2 4 = Ok true <->
     ~ (in_row mock_extract_sudoku 0 4 \/ in_col mock_extract_sudoku 2 4
        \/ in_box mock_extract_sudoku 0 2 4)) /\
  (solved mock_extract_sudoku -> 1 <= 4 <= 9 ->
     is_valid mock_extract_sudoku 0 2 4 = Ok false) /\
  (solved mock_extract_sudoku -> ~ 1 <= 4 <= 9 ->
     is_valid mock_extract_sudoku 0 2 4 = Ok true).
Proof.
  apply (is_valid_iff_occurs mock_extract_sudoku 0 2 4).
  - apply wfb_wf. vm_compute. reflexivity.
  - lia.
  - lia.
Defined.

(** C5: on an already completed valid grid [solve_sudoku] returns true and
    leaves every cell as it was. *)
Theorem solve_sudoku_solved_unchanged board :
  solved board -> solve_sudoku board = Ok (true, board).
Proof.
  intros HS. pose proof (solved_wf board HS) as Hwf.
  pose proof (solved_full board HS) as Hfull.
  unfold solve_sudoku. cbn [solve_sudoku_depth].
  destruct (find_empty_cases board Hwf) as [[-> _]|(r & c & _ & Hg & H0 & _)].
  - reflexivity.
  - by destruct (Hfull r c Hg).
Qed.

Lemma solve_sudoku_solved_unchanged_sample :
  solve_sudoku sample_solution = Ok (true, sample_solution).
Proof.
  apply (solve_sudoku_solved_unchanged sample_solution).
  apply solvedb_solved. vm_compute. reflexivity.
Defined.

(** C9: [solve_sudoku] terminates on every 9x9 grid.  A grid has at most 81
    empty cells; the call returns a boolean and a grid; any stack deeper than
    the number of empty cells gives that same result, so the depth of the
    recursion is bounded by the number of empty cells, and 82 frames are
    always enough; and the grid handed to
    a recursive call, obtained by storing a non-zero value in the cell that
    [find_empty] found, has strictly fewer empty cells. *)
Theorem solve_sudoku_terminates board :
  wf board ->
  (empties board <= 81)%nat /\
  (exists r board', solve_sudoku board = Ok (r, board')) /\
  (forall depth, (empties board < depth)%nat ->
     solve_sudoku_depth depth board = solve_sudoku board) /\
  solve_sudoku_depth 82 board = solve_sudoku board /\
  (forall r c num, find_empty board = Ok (Some (r, c)) -> num <> 0 ->
     exists board1, set_cell board r c num = Ok board1 /\ wf board1 /\
                    (empties board1 < empties board)%nat).
Proof.
  intros Hwf. split_and!.
  - by apply empties_le_81.
  - destruct (solve_spec board Hwf) as [(b' & Heq & _)|[Heq _]]; eauto.
  - intros depth Hlt. by apply solve_depth_stable.
  - apply solve_depth_stable; [done|]. pose proof (empties_le_81 board Hwf). lia.
  - intros r c num Hfind Hnum.
    destruct (find_empty_cases board Hwf) as [[Heq _]|(r' & c' & Heq & Hg & H0 & _)];
      rewrite Heq in Hfind; [done|]. simplify_eq.
    exists (poke board r c num). split_and!.
    + by apply set_cell_poke.
    + by apply poke_wf.
    + pose proof (empties_poke board r c num Hwf Hg H0 Hnum). lia.
Qed.

Lemma solve_sudoku_terminates_sample :
  (empties mock_extract_sudoku <= 81)%nat /\
  (exists r board', solve_sudoku mock_extract_sudoku = Ok (r, board')) /\
  (forall depth, (empties mock_extract_sudoku < depth)%nat ->
     solve_sudoku_depth depth mock_extract_sudoku = solve_sudoku mock_extract_sudoku) /\
  solve_sudoku_depth 82 mock_extract_sudoku = solve_sudoku mock_extract_sudoku /\
  (forall r c num, find_empty mock_extract_sudoku = Ok (Some (r, c)) -> num <> 0 ->
     exists board1, set_cell mock_extract_sudoku r c num = Ok board1 /\ wf board1 /\
                    (empties board1 < empties mock_extract_sudoku)%nat).
Proof.
  apply (solve_sudoku_terminates mock_extract_sudoku).
  apply wfb_wf. vm_compute. reflexivity.
Defined.

(** C10: whatever boolean [solve_sudoku] returns on a 9x9 grid, every cell
    that held a non-zero value before the call holds the same value after
    it. *)
Theorem solve_sudoku_keeps_clues board :
  wf board ->
  exists r board', solve_sudoku board = Ok (r, board') /\
    forall i j v, in_grid i j -> cell board i j = Ok v -> v <> 0 ->
                  cell board' i j = Ok v.
Proof.
  intros Hwf.
  destruct (solve_spec board Hwf) as [(b' & Heq & Hwf' & _ & Hext & _)|[Heq _]].
  - exists true, b'. split; [done|]. intros i j v Hg Hv Hnz.
    rewrite cell_peek in Hv |- * by done. simplify_eq.
    f_equal. by apply Hext.
  - exists false, board. by split.
Qed.

Lemma solve_sudoku_keeps_clues_sample :
  exists r board', solve_sudoku mock_extract_sudoku = Ok (r, board') /\
    forall i j v, in_grid i j -> cell mock_extract_sudoku i j = Ok v -> v <> 0 ->
                  cell board' i j = Ok v.
Proof.
  apply (solve_sudoku_keeps_clues mock_extract_sudoku).
  apply wfb_wf. vm_compute. reflexivity.
Defined.

(** C1: on a 9x9 grid with exactly one valid completion [S], [solve_sudoku]
    returns (so it terminates), returns true, and leaves the grid equal to
    [S]; on the sample board the solved row 0 is [5,3,4,6,7,8,9,1,2]. *)
Theorem solve_sudoku_unique_completion board S :
  wf board -> completion board S ->
  (forall S', completion board S' -> S' = S) ->
  solve_sudoku board = Ok (true, S) /\
  (board = mock_extract_sudoku -> getitem S 0 = Ok [5; 3; 4; 6; 7; 8; 9; 1; 2]).
Proof.
  intros Hwf HS Huniq.
  assert (Hsolve : solve_sudoku board = Ok (true, S)).
  { destruct (solve_spec board Hwf) as [(b' & Heq & Hfound)|[_ Hno]].
    - unfold solve_sudoku. rewrite Heq. do 2 f_equal. apply Huniq.
      apply found_completion; [by eapply completion_consistent|done].
    - by destruct (Hno S). }
  split; [done|]. intros ->.
  assert (Hrun : solve_sudoku mock_extract_sudoku = Ok (true, sample_solution))
    by (vm_compute; reflexivity).
  rewrite Hrun in Hsolve. injection Hsolve as <-. vm_compute. reflexivity.
Qed.

Lemma solve_sudoku_unique_completion_sample :
  solve_sudoku mock_extract_sudoku = Ok (true, sample_solution) /\
  (mock_extract_sudoku = mock_extract_sudoku ->
   getitem sample_solution 0 = Ok [5; 3; 4; 6; 7; 8; 9; 1; 2]).
Proof.
  apply (solve_sudoku_unique_completion mock_extract_sudoku sample_solution).
  - apply wfb_wf. vm_compute. reflexivity.
  - apply completionb_completion. vm_compute. reflexivity.
  - apply (unique_by_search 82).
    + apply wfb_wf. vm_compute. reflexivity.
    + vm_compute. lia.
    + vm_compute. reflexivity.
Defined.

(** C3, as the code has it: the solver never checks the clues it is given
    against each other.  [two_fives] holds 5 twice in row 0, so it has no
    valid completion, yet [solve_sudoku] fills its one empty cell and returns
    true. *)
Lemma solve_sudoku_conflicting_clues_true :
  wf two_fives /\ (forall S, ~ completion two_fives S) /\
  solve_sudoku two_fives = Ok (true, two_fives_filled) /\
  ~ (exists board', solve_sudoku two_fives = Ok (false, board')).
Proof.
  assert (Hwf : wf two_fives) by (apply wfb_wf; vm_compute; reflexivity).
  assert (Hrun : solve_sudoku two_fives = Ok (true, two_fives_filled))
    by (vm_compute; reflexivity).
  split_and!; try done.
  - intros S HS. destruct (completion_consistent _ _ Hwf HS) as [_ Hcons].
    destruct (Hcons 0 0) as [_ Hpeers]; [split; lia|done|].
    apply (Hpeers 0 1); [split; lia|done|by left|reflexivity].
  - intros [b' Hb']. rewrite Hrun in Hb'. done.
Qed.

(** C3, amended: on a 9x9 grid whose clues are consistent (every non-empty
    cell holds a digit 1..9 that no other cell of its row, column or box
    holds) and that has no valid completion, [solve_sudoku] returns false, as
    a normal result and not an exception. *)
Theorem solve_sudoku_no_completion_false board :
  consistent board -> (forall S, ~ completion board S) ->
  exists board', solve_sudoku board = Ok (false, board').
Proof.
  intros Hcons Hno. pose proof Hcons as [Hwf _].
  destruct (solve_spec board Hwf) as [(b' & Heq & Hfound)|[Heq _]]; [|eauto].
  destruct (Hno b'). by apply found_completion.
Qed.

Lemma solve_sudoku_no_completion_false_blocked :
  exists board', solve_sudoku blocked_corner = Ok (false, board').
Proof.
  apply (solve_sudoku_no_completion_false blocked_corner).
  - apply consistentb_consistent. vm_compute. reflexivity.
  - apply (none_by_search 82).
    + apply wfb_wf. vm_compute. reflexivity.
    + vm_compute. lia.
    + vm_compute. reflexivity.
Defined.

(** ** Hints *)

Lemma solve_cases b :
  wf b ->
  (exists b', solve_sudoku b = Ok (true, b') /\ found b b') \/
  (solve_sudoku b = Ok (false, b) /\ forall S, ~ completion b S).
Proof. apply solve_spec. Qed.

Lemma leadsb_unfold b r c n :
  wf b -> in_grid r c ->
  leadsb b r c n =
  negb (conflictb b r c n) &&
  match solve_sudoku (poke b r c n) with Ok (true, _) => true | _ => false end.
Proof.
  intros Hwf Hg. unfold leadsb. rewrite is_valid_conflictb, set_cell_poke by done.
  by destruct (conflictb b r c n).
Qed.

(** The scan of [get_hint] stops at the first candidate that leads to a
    completion, and otherwise leaves the working copy as it was. *)
Lemma hint_values_spec b r c nums :
  wf b -> in_grid r c -> peek b r c = 0 ->
  (exists pre v post, nums = pre ++ v :: post /\
     (forall u, u ∈ pre -> leadsb b r c u = false) /\ leadsb b r c v = true /\
     hint_values r c nums b = Ok (Some (r, c, v), poke b r c v)) \/
  ((forall u, u ∈ nums -> leadsb b r c u = false) /\
   hint_values r c nums b = Ok (None, b)).
Proof.
  intros Hwf Hg H0. induction nums as [|n nums IH].
  - right. split; [|done]. intros u Hu. by apply elem_of_nil in Hu.
  - pose proof (leadsb_unfold b r c n Hwf Hg) as Hl.
    assert (Hskip : leadsb b r c n = false ->
      (exists pre v post, nums = pre ++ v :: post /\
         (forall u, u ∈ pre -> leadsb b r c u = false) /\ leadsb b r c v = true /\
         hint_values r c nums b = Ok (Some (r, c, v), poke b r c v)) \/
      ((forall u, u ∈ nums -> leadsb b r c u = false) /\
       hint_values r c nums b = Ok (None, b)) ->
      (exists pre v post, n :: nums = pre ++ v :: post /\
         (forall u, u ∈ pre -> leadsb b r c u = false) /\ leadsb b r c v = true /\
         hint_values r c nums b = Ok (Some (r, c, v), poke b r c v)) \/
      ((forall u, u ∈ n :: nums -> leadsb b r c u = false) /\
       hint_values r c nums b = Ok (None, b))).
    { intros Hn [(pre & v & post & -> & Hpre & Hv & Hh)|[Hall Hh]].
      - left. exists (n :: pre), v, post. split_and!; try done.
        intros u [->|Hu]%elem_of_cons; auto.
      - right. split; [|done]. intros u [->|Hu]%elem_of_cons; auto. }
    cbn [hint_values]. rewrite is_valid_conflictb by done. cbn [Py.bind].
    destruct (conflictb b r c n); cbn [negb andb] in *; [by apply Hskip|].
    rewrite set_cell_poke by done. cbn [Py.bind]. rewrite copy_board_id.
    assert (Hwf1 : wf (poke b r c n)) by by apply poke_wf.
    destruct (solve_cases _ Hwf1) as [(b' & Heq & _)|[Heq _]];
      rewrite Heq in Hl |- *; cbn [Py.bind].
    + left. exists [], n, nums. split_and!; try done.
      intros u Hu. by apply elem_of_nil in Hu.
    + rewrite set_cell_poke by done. cbn [Py.bind]. rewrite poke_undo by done.
      by apply Hskip.
Qed.

Lemma get_hint_cases b :
  wf b ->
  (full b /\ get_hint b = Ok (None, b)) \/
  (exists r c, find_empty b = Ok (Some (r, c)) /\ in_grid r c /\ peek b r c = 0 /\
     ((exists v, 1 <= v <= 9 /\ leadsb b r c v = true /\
         (forall u, 1 <= u < v -> leadsb b r c u = false) /\
         get_hint b = Ok (Some (r, c, v), poke b r c v)) \/
      ((forall u, 1 <= u <= 9 -> leadsb b r c u = false) /\
       get_hint b = Ok (None, b)))).
Proof.
  intros Hwf. unfold get_hint. rewrite copy_board_id.
  destruct (find_empty_cases b Hwf) as [[-> Hfull]|(r & c & -> & Hg & H0 & _)];
    cbn [Py.bind]; [by left|].
  right. exists r, c. split_and!; try done.
  destruct (hint_values_spec b r c (range 1 10) Hwf Hg H0)
    as [(pre & v & post & Heq & Hpre & Hv & Hh)|[Hall Hh]].
  - left. exists v. destruct (range_split _ _ _ _ _ Heq) as [Hvr Hlt].
    split_and!; try done; try lia. intros u Hu. by apply Hpre, Hlt.
  - right. split; [|done]. intros u Hu. apply Hall, range_elem. lia.
Qed.

Lemma first_empty_find b r c :
  wf b -> first_empty b r c <-> find_empty b = Ok (Some (r, c)).
Proof.
  intros Hwf.
  destruct (find_empty_cases b Hwf) as [[Hf Hfull]|(r0 & c0 & Hf & Hg0 & H0 & Hfirst)];
    rewrite Hf; split.
  - intros (Hg & Hc & _). rewrite cell_peek in Hc by done.
    destruct (Hfull r c Hg). congruence.
  - done.
  - intros (Hg & Hc & Hbefore). rewrite cell_peek in Hc by done.
    assert (Hz : peek b r c = 0) by congruence.
    destruct Hg as [Hr Hcc], Hg0 as [Hr0 Hc0].
    destruct (decide (r0 < r \/ (r0 = r /\ c0 < c))) as [Hlt|Hnlt].
    { destruct (Hbefore r0 c0) as (v & Hv & Hnz); [by split|done|].
      rewrite cell_peek in Hv by (done || by split). congruence. }
    destruct (decide (r < r0 \/ (r = r0 /\ c < c0))) as [Hlt|Hnlt'].
    { destruct (Hfirst r c); [by split|done|done]. }
    do 3 f_equal; lia.
  - intros Heq. simplify_eq. split_and!; try done.
    + rewrite cell_peek by done. by f_equal.
    + intros r' c' Hg' Hlt. exists (peek b r' c'). split; [by apply cell_peek|].
      by apply Hfirst.
Qed.

(** C4: on a 9x9 grid [get_hint] returns the hint (r, c, v) exactly when
    (r, c) is the first empty cell in row-major order and v is the smallest
    value in 1..9 that is valid there and from which [solve_sudoku] completes
    the scratch copy (the working copy it returns then holds v at (r, c)); it
    returns no hint exactly when the grid is full or no value in 1..9 leads to
    a completion from the first empty cell; it always returns; and on the
    sample board the hint is cell (0, 2) with value 4. *)
Theorem get_hint_first_viable_value board :
  wf board ->
  (forall r c v board',
     get_hint board = Ok (Some (r, c, v), board') <->
     first_empty board r c /\ 1 <= v <= 9 /\ leads_to_completion board r c v /\
     (forall v', 1 <= v' < v -> ~ leads_to_completion board r c v') /\
     set_cell board r c v = Ok board') /\
  (forall board',
     get_hint board = Ok (None, board') <->
     board' = board /\
     (full board \/
      exists r c, first_empty board r c /\
                  forall v, 1 <= v <= 9 -> ~ leads_to_completion board r c v)) /\
  (exists hint board', get_hint board = Ok (hint, board')) /\
  (board = mock_extract_sudoku ->
   exists board', get_hint board = Ok (Some (0, 2, 4), board')).
Proof.
  intros Hwf.
  assert (Hsample : board = mock_extract_sudoku ->
            exists board', get_hint board = Ok (Some (0, 2, 4), board')).
  { intros ->. eexists. vm_compute. reflexivity. }
  set (Q := board = mock_extract_sudoku -> _) in *. clearbody Q.
  assert (Hnl : forall r c v, leadsb board r c v = false ->
                  ~ leads_to_completion board r c v).
  { intros r c v Hf Hl%leadsb_spec. congruence. }
  destruct (get_hint_cases board Hwf)
    as [[Hfull Hh]|(r0 & c0 & Hfind & Hg0 & H0 & Hcase)].
  - rewrite Hh. split_and!; try done; [| |eauto].
    + intros r c v b'. split; [done|]. intros ((Hg & Hc & _) & _).
      rewrite cell_peek in Hc by done. destruct (Hfull r c Hg). congruence.
    + intros b'. split; [intros ?; simplify_eq; auto|]. by intros [-> _].
  - assert (Hpos : forall r c, first_empty board r c -> r = r0 /\ c = c0).
    { intros r c Hfe%first_empty_find; [|done]. rewrite Hfind in Hfe. by simplify_eq. }
    assert (Hfe0 : first_empty board r0 c0) by by apply first_empty_find.
    destruct Hcase as [(v0 & Hv0 & Hl0 & Hmin & Hh)|[Hall Hh]];
      rewrite Hh; (split_and!; try done; [| |eauto]).
    + intros r c v b'. split.
      * intros ?. simplify_eq. split_and!; try done; try lia.
        -- by apply leadsb_spec.
        -- intros v' Hv'. by apply Hnl, Hmin.
        -- by apply set_cell_poke.
      * intros (Hfe & Hv & Hl & Hmin' & Hset).
        destruct (Hpos r c Hfe) as [-> ->].
        rewrite set_cell_poke in Hset by done.
        assert (v = v0); [|by simplify_eq].
        destruct (Z.lt_trichotomy v v0) as [Hlt|[Heq|Hgt]]; [|done|].
        -- destruct (Hnl r0 c0 v); [apply Hmin; lia|done].
        -- destruct (Hmin' v0); [lia|by apply leadsb_spec].
    + intros b'. split; [done|]. intros [_ [Hfull|(r & c & Hfe & Hno)]].
      * by destruct (Hfull r0 c0 Hg0).
      * destruct (Hpos r c Hfe) as [-> ->]. destruct (Hno v0 Hv0).
        by apply leadsb_spec.
    + intros r c v b'. split; [done|]. intros (Hfe & Hv & Hl & _).
      destruct (Hpos r c Hfe) as [-> ->]. by destruct (Hnl r0 c0 v (Hall v Hv)).
    + intros b'. split; [|by intros [-> _]].
      intros ?. simplify_eq. split; [done|]. right. exists r0, c0. split; [done|].
      intros v Hv. by apply Hnl, Hall.
Qed.

Lemma get_hint_first_viable_value_sample :
  (forall r c v board',
     get_hint mock_extract_sudoku = Ok (Some (r, c, v), board') <->
     first_empty mock_extract_sudoku r c /\ 1 <= v <= 9 /\
     leads_to_completion mock_extract_sudoku r c v /\
     (forall v', 1 <= v' < v -> ~ leads_to_completion mock_extract_sudoku r c v') /\
     set_cell mock_extract_sudoku r c v = Ok board') /\
  (forall board',
     get_hint mock_extract_sudoku = Ok (None, board') <->
     board' = mock_extract_sudoku /\
     (full mock_extract_sudoku \/
      exists r c, first_empty mock_extract_sudoku r c /\
                  forall v, 1 <= v <= 9 -> ~ leads_to_completion mock_extract_sudoku r c v)) /\
  (exists hint board', get_hint mock_extract_sudoku = Ok (hint, board')) /\
  (mock_extract_sudoku = mock_extract_sudoku ->
   exists board', get_hint mock_extract_sudoku = Ok (Some (0, 2, 4), board')).
Proof.
  apply (get_hint_first_viable_value mock_extract_sudoku).
  apply wfb_wf. vm_compute. reflexivity.
Defined.


(** * The extraction pipeline *)

Module ExtractionFacts.

Lemma collect_Forall2 {A B} (f : A -> result B) xs ys :
  collect f xs = Ok ys -> Forall2 (fun x y => f x = Ok y) xs ys.
Proof.
  revert ys. induction xs as [|x xs IH]; intros ys; cbn [collect].
  - intros ?. simplify_eq. constructor.
  - destruct (f x) as [y|] eqn:Hx; cbn [Py.bind]; [|done].
    destruct (collect f xs) as [ys'|]; cbn [Py.bind]; [|done].
    intros ?. simplify_eq. constructor; auto.
Qed.

(** A recognized digit is 0 or a digit 1..9. *)
Lemma recognize_digit_range E cell n :
  recognize_digit E cell = Ok n -> 0 <= n <= 9.
Proof.
  unfold recognize_digit.
  destruct (image_invert E cell) as [c1|]; cbn [Py.bind]; [|done].
  destruct (image_enhance E c1) as [c2|]; cbn [Py.bind]; [|done].
  destruct (image_to_string E c2) as [text|]; cbn [Py.bind try_except];
    [|intros ?; simplify_eq; lia].
  destruct (negb _ && _); cbn [Py.bind try_except]; [|intros ?; simplify_eq; lia].
  destruct (py_int E _) as [k|]; cbn [Py.bind try_except];
    [|intros ?; simplify_eq; lia].
  destruct (Z.leb_spec 1 k), (Z.leb_spec k 9); cbn [andb Py.bind try_except];
    intros ?; simplify_eq; lia.
Qed.

(** The board of recognized digits is 9x9 and holds digits 0..9. *)
Lemma recognize_board_digits E image board :
  recognize_board E image = Ok board ->
  Forall (Forall (fun digit => 0 <= digit <= 9)) board.
Proof.
  unfold recognize_board.
  destruct (preprocess_sudoku_image E image) as [pre|]; cbn [Py.bind]; [|done].
  destruct (extract_cells E pre) as [cells|]; cbn [Py.bind]; [|done].
  intros Hb%collect_Forall2. induction Hb as [|row_cells row cells' board' Hrow _ IH];
    constructor; [|done].
  apply collect_Forall2 in Hrow.
  induction Hrow as [|c d ? ? Hd _ IHrow]; constructor; [|done].
  by eapply recognize_digit_range.
Qed.

Lemma recognize_board_wf E image board :
  recognize_board E image = Ok board -> wf board.
Proof.
  unfold recognize_board.
  destruct (preprocess_sudoku_image E image) as [pre|]; cbn [Py.bind]; [|done].
  destruct (extract_cells E pre) as [cells|] eqn:Hcells; cbn [Py.bind]; [|done].
  intros Hb%collect_Forall2. unfold extract_cells in Hcells.
  apply collect_Forall2 in Hcells. split.
  - by rewrite <- (Forall2_length _ _ _ Hb), <- (Forall2_length _ _ _ Hcells).
  - assert (Hrows : Forall (fun row_cells => length row_cells = 9%nat) cells).
    { clear Hb. induction Hcells as [|i row_cells ? ? Hrow _ IH]; constructor; [|done].
      apply collect_Forall2 in Hrow. by rewrite <- (Forall2_length _ _ _ Hrow). }
    clear Hcells. induction Hb as [|row_cells row ? ? Hrow _ IH]; [constructor|].
    apply Forall_cons in Hrows as [Hlen Hrows]. constructor; [|by apply IH].
    apply collect_Forall2 in Hrow. by rewrite <- (Forall2_length _ _ _ Hrow).
Qed.

(** On digits that are not negative, counting the positive cells is counting
    the non-zero cells. *)
Lemma digit_count_nonzero board :
  Forall (Forall (fun digit => 0 <= digit <= 9)) board ->
  digit_count board = nonzero_count board.
Proof.
  unfold digit_count, nonzero_count. intros Hb. do 2 f_equal.
  induction Hb as [|row board' Hrow _ IH]; [done|].
  cbn [mbind list_bind]. change (list_bind ?f ?l) with (l ≫= f).
  rewrite IH. f_equal. clear IH.
  induction Hrow as [|d row' Hd _ IHrow]; [done|].
  rewrite !filter_cons, IHrow.
  destruct (decide (0 < d)), (decide (d <> 0)); (done || lia).
Qed.

Lemma tesseract_returns E image :
  exists v, extract_sudoku_with_tesseract E image = Ok v.
Proof.
  unfold extract_sudoku_with_tesseract.
  destruct (recognize_board E image) as [board|]; cbn [Py.bind try_except]; [|eauto].
  destruct (digit_count board <? 17); eauto.
Qed.


(** *** The pattern search *)

Lemma app_nil s : (EmptyString ++ s)%string = s.
Proof. reflexivity. Qed.

Lemma app_cons a s t : (String a s ++ t)%string = String a (s ++ t)%string.
Proof. reflexivity. Qed.













(** *** The attempts of the orchestrator *)

Lemma try_tesseract_cases E image :
  (exists v, try_tesseract E image = Ok (Some v) /\ truthy v = true /\
             tesseract_available E = true /\
             extract_sudoku_with_tesseract E image = Ok v) \/
  try_tesseract E image = Ok None.
Proof.
  unfold try_tesseract. destruct (tesseract_available E); [|by right].
  destruct (tesseract_returns E image) as [v Hv]. rewrite Hv. cbn [Py.bind].
  destruct (truthy v) eqn:Ht; [|by right]. left. by exists v.
Qed.





(** A board the structural strategy returns is a grid. *)
Lemma tesseract_grid E image v :
  extract_sudoku_with_tesseract E image = Ok v -> truthy v = true -> is_grid v.
Proof.
  unfold extract_sudoku_with_tesseract.
  destruct (recognize_board E image) as [board|] eqn:Hrec; cbn [Py.bind try_except];
    [|intros ? Ht; simplify_eq; by cbn in Ht].
  destruct (digit_count board <? 17); cbn [Py.bind try_except];
    intros ? Ht; simplify_eq.
  exists board. split_and!; [done| |].
  - by eapply recognize_board_wf.
  - by eapply recognize_board_digits.
Qed.

Lemma mock_grid : is_grid (of_board mock_extract_sudoku).
Proof.
  exists mock_extract_sudoku. split_and!; [done| |].
  - apply BoardFacts.wfb_wf. vm_compute. reflexivity.
  - apply (bool_decide_unpack _). vm_compute. exact I.
Qed.

End ExtractionFacts.

Import ExtractionFacts.

(** * The specification of the extraction pipeline *)

(** C6: the structural strategy rejects, by returning [None] instead of a
    grid, every recognition result with fewer than 17 non-zero cells, wherever
    those cells are; a result with 17 or more non-zero cells passes the gate
    and is returned. *)
Theorem tesseract_rejects_fewer_than_17 (E : Env) (image : Image E) (board : Board) :
  recognize_board E image = Ok board ->
  (nonzero_count board < 17 -> extract_sudoku_with_tesseract E image = Ok VNone) /\
  (17 <= nonzero_count board ->
   extract_sudoku_with_tesseract E image = Ok (of_board board)).
Proof.
  intros Hrec. unfold extract_sudoku_with_tesseract. rewrite Hrec.
  cbn [Py.bind try_except].
  rewrite (digit_count_nonzero board (recognize_board_digits E image board Hrec)).
  split; intros Hn.
  - by rewrite (proj2 (Z.ltb_lt _ _) Hn).
  - by rewrite (proj2 (Z.ltb_ge _ _) Hn).
Qed.

Lemma tesseract_rejects_fewer_than_17_sample :
  (nonzero_count sixteen_clues < 17 ->
   extract_sudoku_with_tesseract (printed_env true false None (Raise OtherError))
     sixteen_clues = Ok VNone) /\
  (17 <= nonzero_count sixteen_clues ->
   extract_sudoku_with_tesseract (printed_env true false None (Raise OtherError))
     sixteen_clues = Ok (of_board sixteen_clues)).
Proof.
  apply (tesseract_rejects_fewer_than_17
           (printed_env true false None (Raise OtherError)) sixteen_clues sixteen_clues).
  vm_compute. reflexivity.
Defined.





(** The reply asked for in the prompt, the sample grid written as a list of
    lists inside a sentence, is accepted and returned as that grid. *)
Example gemini_accepts_sample_matrix :
  extract_sudoku_with_gemini
    (printed_env false true (Some "key"%string)
       (Ok "Here is the grid: [[5,3,0,0,7,0,0,0,0],[6,0,0,1,9,5,0,0,0],[0,9,8,0,0,0,0,6,0],[8,0,0,0,6,0,0,0,3],[4,0,0,8,0,3,0,0,1],[7,0,0,0,2,0,0,0,6],[0,6,0,0,0,0,2,8,0],[0,0,0,4,1,9,0,0,5],[0,0,0,0,8,0,0,7,9]]"%string))
    mock_extract_sudoku "data:image/png;base64,AAAA"
  = Ok (of_board mock_extract_sudoku).
Proof. vm_compute. reflexivity. Qed.

(** A reply whose matched text calls [sys.exit] ends the strategy, and with
    it [extract_sudoku_from_image], by [SystemExit]: neither
    [except Exception] stops it. *)
Example gemini_reply_exits :
  extract_sudoku_with_gemini
    (printed_env false true (Some "key"%string) (Ok "[[sys.exit()]]"%string))
    blank "data:image/png;base64,AAAA"
  = Escapes SystemExit /\
  extract_sudoku_from_image
    (printed_env false true (Some "key"%string) (Ok "[[sys.exit()]]"%string))
    ("data:image/png;base64," ++ blank_png)
  = Escapes SystemExit.
Proof. split; vm_compute; reflexivity. Qed.

(** * Further properties of the search *)

Module SearchFacts.

(** The loop of [solve_sudoku] over the candidate digits stops at the first
    one that passes [is_valid] and from which the solver completes the grid,
    and hands back what the solver made of the grid with that digit placed. *)
Lemma try_values_leads depth b r c nums :
  wf b -> in_grid r c -> peek b r c = 0 -> (empties b <= depth)%nat ->
  Forall (fun n => n <> 0) nums ->
  (exists pre n post b', nums = pre ++ n :: post /\
     (forall u, u ∈ pre -> leadsb b r c u = false) /\ leadsb b r c n = true /\
     solve_sudoku (poke b r c n) = Ok (true, b') /\
     try_values (solve_sudoku_depth depth) r c nums b = Ok (true, b')) \/
  ((forall u, u ∈ nums -> leadsb b r c u = false) /\
   try_values (solve_sudoku_depth depth) r c nums b = Ok (false, b)).
Proof.
  intros Hwf Hg H0 Hdepth Hnums. induction Hnums as [|n nums Hn _ IH].
  - right. split; [|done]. intros u Hu. by apply elem_of_nil in Hu.
  - pose proof (leadsb_unfold b r c n Hwf Hg) as Hl.
    assert (Hskip : leadsb b r c n = false ->
      (exists pre m post b', n :: nums = pre ++ m :: post /\
         (forall u, u ∈ pre -> leadsb b r c u = false) /\ leadsb b r c m = true /\
         solve_sudoku (poke b r c m) = Ok (true, b') /\
         try_values (solve_sudoku_depth depth) r c nums b = Ok (true, b')) \/
      ((forall u, u ∈ n :: nums -> leadsb b r c u = false) /\
       try_values (solve_sudoku_depth depth) r c nums b = Ok (false, b))).
    { intros Hf. destruct IH as [(pre & m & post & b' & -> & Hpre & Hm & Hs & Ht)|[Hall Ht]].
      - left. exists (n :: pre), m, post, b'. split_and!; try done.
        intros u [->|Hu]%elem_of_cons; auto.
      - right. split; [|done]. intros u [->|Hu]%elem_of_cons; auto. }
    cbn [try_values]. rewrite is_valid_conflictb by done. cbn [Py.bind].
    destruct (conflictb b r c n); cbn [negb andb] in *; [by apply Hskip|].
    rewrite set_cell_poke by done. cbn [Py.bind].
    assert (Hwf1 : wf (poke b r c n)) by by apply poke_wf.
    assert (Hlt : (empties (poke b r c n) < depth)%nat).
    { pose proof (empties_poke b r c n Hwf Hg H0 Hn). lia. }
    rewrite (solve_depth_stable depth _ Hwf1 Hlt).
    destruct (solve_cases _ Hwf1) as [(b' & Heq & _)|[Heq _]];
      rewrite Heq in Hl |- *; cbn [Py.bind].
    + left. exists [], n, nums, b'. split_and!; try done.
      intros u Hu. by apply elem_of_nil in Hu.
    + rewrite set_cell_poke by done. cbn [Py.bind]. rewrite poke_undo by done.
      by apply Hskip.
Qed.

(** One level of the search: on a full grid the solver answers true at once;
    otherwise it works on the first empty cell, and succeeds with the
    smallest digit that leads to a completion, or fails when none does. *)
Lemma solve_step b :
  wf b ->
  (full b /\ solve_sudoku b = Ok (true, b)) \/
  (exists r c, find_empty b = Ok (Some (r, c)) /\ in_grid r c /\ peek b r c = 0 /\
     (forall r' c', in_grid r' c' -> before_cell r' c' r c -> peek b r' c' <> 0) /\
     ((exists n b', 1 <= n <= 9 /\ leadsb b r c n = true /\
         (forall u, 1 <= u < n -> leadsb b r c u = false) /\
         solve_sudoku (poke b r c n) = Ok (true, b') /\
         solve_sudoku b = Ok (true, b')) \/
      ((forall u, 1 <= u <= 9 -> leadsb b r c u = false) /\
       solve_sudoku b = Ok (false, b)))).
Proof.
  intros Hwf.
  assert (Hunf : solve_sudoku b =
    (empty <- find_empty b ;;
     match empty with
     | None => Ok (true, b)
     | Some (row, col) =>
         try_values (solve_sudoku_depth (empties b)) row col (range 1 10) b
     end)) by reflexivity.
  destruct (find_empty_cases b Hwf) as [[Hf Hfull]|(r & c & Hf & Hg & H0 & Hfirst)];
    rewrite Hf in Hunf; cbn [Py.bind] in Hunf; [by left|].
  right. exists r, c. split_and!; try done.
  assert (Hnz : Forall (fun n => n <> 0) (range 1 10)).
  { apply Forall_forall. intros n Hn%range_elem. lia. }
  destruct (try_values_leads (empties b) b r c (range 1 10) Hwf Hg H0 ltac:(lia) Hnz)
    as [(pre & n & post & b' & Heq & Hpre & Hn & Hs & Ht)|[Hall Ht]];
    rewrite Ht in Hunf.
  - left. exists n, b'. destruct (range_split _ _ _ _ _ Heq) as [Hnr Hlt].
    split_and!; try done; try lia. intros u Hu. by apply Hpre, Hlt.
  - right. split; [|done]. intros u Hu. apply Hall, range_elem. lia.
Qed.

(** A digit that a completion holds at an empty cell leads to a
    completion. *)
Lemma completion_leads b S r c :
  wf b -> completion b S -> in_grid r c -> peek b r c = 0 ->
  leadsb b r c (peek S r c) = true.
Proof.
  intros Hwf HS Hg H0. rewrite leadsb_unfold by done.
  rewrite (completion_valid b S r c) by done. cbn [negb andb].
  destruct (solve_cases (poke b r c (peek S r c))) as [(b' & -> & _)|[_ Hno]];
    [by apply poke_wf|done|].
  destruct (Hno S). by apply completion_place.
Qed.

(** What the solver leaves is not after any completion in row-major
    order. *)
Lemma solve_least k :
  forall b b' S, wf b -> (empties b < k)%nat ->
    solve_sudoku b = Ok (true, b') -> completion b S -> row_major_le b' S.
Proof.
  induction k as [|k IH]; intros b b' S Hwf Hlt Hsolve HS; [lia|].
  destruct (solve_step b Hwf)
    as [[Hfull Hb]|(r & c & _ & Hg & H0 & Hfirst & [(n & b1 & Hn & Hln & Hmin & Hs1 & Hb)|[Hall Hb]])];
    rewrite Hb in Hsolve; simplify_eq.
  - left. intros r c Hg. symmetry. destruct HS as [_ Hext]. apply Hext; [done|].
    by apply Hfull.
  - assert (Hwf1 : wf (poke b r c n)) by by apply poke_wf.
    destruct (solve_cases _ Hwf1) as [(b2 & Hs2 & Hw2 & _ & Hext2 & _)|[Hs2 _]];
      rewrite Hs2 in Hs1; simplify_eq.
    pose proof (completion_leads b S r c Hwf HS Hg H0) as HlS.
    assert (HdS : 1 <= peek S r c <= 9).
    { destruct HS as [HS _]. by apply solved_digit. }
    assert (Hle : n <= peek S r c).
    { destruct (Z.le_gt_cases n (peek S r c)) as [|Hgt]; [done|].
      rewrite Hmin in HlS by lia. done. }
    assert (Hbn : peek b' r c = n).
    { rewrite (Hext2 r c Hg); rewrite peek_poke_eq by done; [done|lia]. }
    destruct (decide (n = peek S r c)) as [Heq|Hne].
    + apply (IH (poke b r c n)); try done.
      * pose proof (empties_poke b r c n Hwf Hg H0 ltac:(lia)). lia.
      * rewrite Heq. by apply completion_place.
    + right. exists r, c. split_and!; [done|lia|].
      intros r' c' Hg' Hbefore. pose proof (Hfirst r' c' Hg' Hbefore) as Hnz.
      assert (Hne' : (r', c') <> (r, c)).
      { intros Heq. injection Heq as -> ->. done. }
      destruct HS as [_ HextS]. rewrite (HextS r' c' Hg' Hnz).
      destruct Hg, Hg'.
      rewrite (Hext2 r' c' ltac:(by split)); rewrite peek_poke_ne by (done || lia);
        done.
Qed.

(** With a hint placed, the solver arrives where it arrives without it. *)
Lemma get_hint_step b :
  wf b ->
  match solve_sudoku b with
  | Ok (true, b') =>
      (full b /\ get_hint b = Ok (None, b)) \/
      (exists r c, first_empty b r c /\ 1 <= peek b' r c <= 9 /\
         get_hint b = Ok (Some (r, c, peek b' r c), poke b r c (peek b' r c)) /\
         solve_sudoku (poke b r c (peek b' r c)) = Ok (true, b'))
  | Ok (false, _) => ~ full b /\ get_hint b = Ok (None, b)
  | Raise _ => False
  end.
Proof.
  intros Hwf.
  destruct (solve_step b Hwf)
    as [[Hfull Hb]|(r & c & Hfind & Hg & H0 & _ & [(n & b1 & Hn & Hln & Hmin & Hs1 & Hb)|[Hall Hb]])];
    rewrite Hb.
  - left. split; [done|].
    destruct (get_hint_cases b Hwf) as [[_ Hh]|(r & c & _ & Hg & H0 & _)]; [done|].
    by destruct (Hfull r c Hg).
  - right. exists r, c.
    assert (Hwf1 : wf (poke b r c n)) by by apply poke_wf.
    assert (Hbn : peek b1 r c = n).
    { destruct (solve_cases _ Hwf1) as [(b2 & Hs2 & _ & _ & Hext2 & _)|[Hs2 _]];
        rewrite Hs2 in Hs1; simplify_eq.
      rewrite (Hext2 r c Hg); rewrite peek_poke_eq by done; [done|lia]. }
    rewrite Hbn. split; [by apply first_empty_find|]. split; [lia|].
    split; [|done].
    destruct (get_hint_cases b Hwf)
      as [[Hfull _]|(r' & c' & Hfind' & _ & _ & [(v & Hv & Hlv & Hminv & Hh)|[Hallv _]])].
    + by destruct (Hfull r c Hg).
    + rewrite Hfind in Hfind'. injection Hfind' as <- <-.
      assert (v = n); [|by subst].
      destruct (Z.lt_trichotomy v n) as [Hlt|[Heq|Hgt]]; [|done|].
      * rewrite Hmin in Hlv by lia. done.
      * rewrite Hminv in Hln by lia. done.
    + rewrite Hfind in Hfind'. injection Hfind' as <- <-. rewrite Hallv in Hln by done. done.
  - split; [intros Hfull; by destruct (Hfull r c Hg)|].
    destruct (get_hint_cases b Hwf)
      as [[Hfull _]|(r' & c' & Hfind' & _ & _ & [(v & Hv & Hlv & _)|[_ Hh]])].
    + by destruct (Hfull r c Hg).
    + rewrite Hfind in Hfind'. injection Hfind' as <- <-. rewrite Hall in Hlv by done. done.
    + done.
Qed.

Lemma follow_hints_reaches k :
  forall b b', wf b -> (empties b <= k)%nat -> solve_sudoku b = Ok (true, b') ->
    follow_hints k b = Ok b' /\ forall j, (k <= j)%nat -> follow_hints j b = Ok b'.
Proof.
  assert (Hfull : forall j b, wf b -> full b -> follow_hints j b = Ok b).
  { intros [|j] b Hwf Hf; [done|]. cbn [follow_hints].
    destruct (get_hint_cases b Hwf) as [[_ ->]|(r & c & _ & Hg & H0 & _)]; [done|].
    by destruct (Hf r c Hg). }
  assert (Hmain : forall j b b', wf b -> (empties b <= j)%nat ->
            solve_sudoku b = Ok (true, b') -> follow_hints j b = Ok b').
  { induction j as [|j IH]; intros b b' Hwf Hle Hsolve.
    - pose proof (get_hint_step b Hwf) as Hstep. rewrite Hsolve in Hstep.
      destruct Hstep as [[Hf _]|(r & c & (Hg & Hc & _) & Hd & _ & _)].
      + destruct (solve_step b Hwf) as [[_ Hb]|(r & c & _ & Hg & H0 & _)].
        * rewrite Hb in Hsolve. injection Hsolve as <-. by apply Hfull.
        * by destruct (Hf r c Hg).
      + rewrite cell_peek in Hc by done. simplify_eq.
        pose proof (empties_poke b r c 1 Hwf Hg ltac:(done) ltac:(done)). lia.
    - pose proof (get_hint_step b Hwf) as Hstep. rewrite Hsolve in Hstep.
      cbn [follow_hints].
      destruct Hstep as [[Hf Hh]|(r & c & (Hg & Hc & _) & Hd & -> & Hs)]; cbn [Py.bind].
      + destruct (solve_step b Hwf) as [[_ Hb]|(r & c & _ & Hg & H0 & _)].
        * rewrite Hb in Hsolve. injection Hsolve as <-.
          by apply (Hfull (S j)).
        * by destruct (Hf r c Hg).
      + rewrite cell_peek in Hc by done. simplify_eq.
        apply IH; [by apply poke_wf| |done].
        pose proof (empties_poke b r c (peek b' r c) Hwf Hg ltac:(done) ltac:(lia)).
        lia. }
  intros b b' Hwf Hle Hsolve. split; [by apply Hmain|].
  intros j Hj. apply Hmain; (done || lia).
Qed.

End SearchFacts.

Import SearchFacts.

(** ** What the solver and the hints guarantee beyond the specification *)

(** X1: on a 9x9 grid whose clues are consistent, a true answer of
    [solve_sudoku] comes with a valid completion: every row, column and box
    of the grid it leaves is a permutation of 1..9, and the clues are kept. *)
Theorem solve_sudoku_true_is_completion board board' :
  consistent board -> solve_sudoku board = Ok (true, board') ->
  solved board' /\ extends board board'.
Proof.
  intros Hcons Hsolve. pose proof Hcons as [Hwf _].
  destruct (solve_cases board Hwf) as [(b' & Heq & Hfound)|[Heq _]];
    rewrite Heq in Hsolve; simplify_eq.
  by apply found_completion.
Qed.

Lemma solve_sudoku_true_is_completion_sample :
  solved sample_solution /\ extends mock_extract_sudoku sample_solution.
Proof.
  apply (solve_sudoku_true_is_completion mock_extract_sudoku sample_solution).
  - apply consistentb_consistent. vm_compute. reflexivity.
  - vm_compute. reflexivity.
Defined.

(** X2: whenever a 9x9 grid has a completion, unique or not, [solve_sudoku]
    returns true, and the grid it leaves is a completion that is not after
    any other completion in row-major order: the search settles the cells in
    scan order with the smallest digit that works. *)
Theorem solve_sudoku_finds_least_completion board S :
  wf board -> completion board S ->
  exists board', solve_sudoku board = Ok (true, board') /\
                 completion board board' /\ row_major_le board' S.
Proof.
  intros Hwf HS.
  destruct (solve_cases board Hwf) as [(b' & Heq & Hfound)|[_ Hno]];
    [|by destruct (Hno S)].
  exists b'. split_and!; [done| |].
  - apply found_completion; [by eapply completion_consistent|done].
  - apply (solve_least (Datatypes.S (empties board)) board b' S); (done || lia).
Qed.

Lemma solve_sudoku_finds_least_completion_sample :
  exists board', solve_sudoku mock_extract_sudoku = Ok (true, board') /\
                 completion mock_extract_sudoku board' /\
                 row_major_le board' sample_solution.
Proof.
  apply (solve_sudoku_finds_least_completion mock_extract_sudoku sample_solution).
  - apply wfb_wf. vm_compute. reflexivity.
  - apply completionb_completion. vm_compute. reflexivity.
Defined.

(** X3: when [solve_sudoku] returns false on a 9x9 grid, every digit it
    placed has been taken back, so the grid is exactly as it was before the
    call, and the grid has no valid completion. *)
Theorem solve_sudoku_false_restores board board' :
  wf board -> solve_sudoku board = Ok (false, board') ->
  board' = board /\ forall S, ~ completion board S.
Proof.
  intros Hwf Hsolve.
  destruct (solve_cases board Hwf) as [(b' & Heq & _)|[Heq Hno]];
    rewrite Heq in Hsolve; by simplify_eq.
Qed.

Lemma solve_sudoku_false_restores_sample :
  blocked_corner = blocked_corner /\ forall S, ~ completion blocked_corner S.
Proof.
  apply (solve_sudoku_false_restores blocked_corner blocked_corner).
  - apply wfb_wf. vm_compute. reflexivity.
  - vm_compute. reflexivity.
Defined.

(** X4: [get_hint] and [solve_sudoku] agree.  When the solver completes a
    9x9 grid to [S], the hint for that grid is its first empty cell with the
    digit [S] holds there, the working copy handed back is the grid with that
    digit placed, and the solver completes that copy to the same [S]; when
    the solver returns false, there is no hint. *)
Theorem get_hint_agrees_with_solver board :
  wf board ->
  (forall S r c, solve_sudoku board = Ok (true, S) -> first_empty board r c ->
     exists v board1, cell S r c = Ok v /\ set_cell board r c v = Ok board1 /\
       get_hint board = Ok (Some (r, c, v), board1) /\
       solve_sudoku board1 = Ok (true, S)) /\
  (forall board', solve_sudoku board = Ok (false, board') ->
     get_hint board = Ok (None, board)).
Proof.
  intros Hwf. pose proof (get_hint_step board Hwf) as Hstep. split.
  - intros S r c Hsolve Hfe. rewrite Hsolve in Hstep.
    destruct Hstep as [[Hfull _]|(r0 & c0 & Hfe0 & Hd & Hh & Hs)].
    + destruct Hfe as (Hg & Hc & _). rewrite cell_peek in Hc by done.
      destruct (Hfull r c Hg). congruence.
    + apply first_empty_find in Hfe, Hfe0; try done.
      rewrite Hfe in Hfe0. injection Hfe0 as <- <-.
      assert (Hg : in_grid r c).
      { destruct (find_empty_cases board Hwf) as [[Hf _]|(r1 & c1 & Hf & Hg & _)];
          rewrite Hf in Hfe; by simplify_eq. }
      assert (HwS : wf S).
      { destruct (solve_cases board Hwf) as [(b' & Heq & Hw & _)|[Heq _]];
          rewrite Heq in Hsolve; by simplify_eq. }
      exists (peek S r c), (poke board r c (peek S r c)). split_and!; try done.
      * by apply cell_peek.
      * by apply set_cell_poke.
  - intros b' Hsolve. rewrite Hsolve in Hstep. by destruct Hstep.
Qed.

Lemma get_hint_agrees_with_solver_sample :
  (forall S r c, solve_sudoku mock_extract_sudoku = Ok (true, S) ->
     first_empty mock_extract_sudoku r c ->
     exists v board1, cell S r c = Ok v /\
       set_cell mock_extract_sudoku r c v = Ok board1 /\
       get_hint mock_extract_sudoku = Ok (Some (r, c, v), board1) /\
       solve_sudoku board1 = Ok (true, S)) /\
  (forall board', solve_sudoku mock_extract_sudoku = Ok (false, board') ->
     get_hint mock_extract_sudoku = Ok (None, mock_extract_sudoku)).
Proof.
  apply (get_hint_agrees_with_solver mock_extract_sudoku).
  apply wfb_wf. vm_compute. reflexivity.
Defined.

(** X5: following hints reaches the solver's answer.  When the solver
    completes a 9x9 grid to [S], asking for a hint and going on from the
    working copy handed back, as many times as the grid has empty cells or
    more, ends with exactly [S]. *)
Theorem follow_hints_reaches_solution board S n :
  wf board -> solve_sudoku board = Ok (true, S) -> (empties board <= n)%nat ->
  follow_hints n board = Ok S.
Proof.
  intros Hwf Hsolve Hn.
  by apply (follow_hints_reaches n board S Hwf Hn Hsolve).
Qed.

Lemma follow_hints_reaches_solution_sample :
  follow_hints 51 mock_extract_sudoku = Ok sample_solution.
Proof.
  apply (follow_hints_reaches_solution mock_extract_sudoku sample_solution 51).
  - apply wfb_wf. vm_compute. reflexivity.
  - vm_compute. reflexivity.
  - vm_compute. lia.
Defined.

(** X6: on a 9x9 grid with consistent clues, [get_hint] returns a hint
    exactly when the grid has an empty cell and a valid completion; the grid
    with the hint placed then still has a valid completion, and when the
    completion of the grid is unique the hint is the digit that completion
    holds at the cell. *)
Theorem get_hint_sound_and_complete board :
  consistent board ->
  ((exists hint board1, get_hint board = Ok (Some hint, board1)) <->
   (~ full board /\ exists S, completion board S)) /\
  (forall r c v board1, get_hint board = Ok (Some (r, c, v), board1) ->
     (exists S, completion board1 S /\ completion board S /\ cell S r c = Ok v) /\
     (forall S, completion board S -> (forall S', completion board S' -> S' = S) ->
        cell S r c = Ok v)).
Proof.
  intros Hcons. pose proof Hcons as [Hwf _].
  pose proof (get_hint_step board Hwf) as Hstep.
  destruct (solve_cases board Hwf) as [(b' & Heq & Hfound)|[Heq Hno]];
    rewrite Heq in Hstep.
  - pose proof (found_completion board b' Hcons Hfound) as Hcomp.
    destruct Hstep as [[Hfull Hh]|(r0 & c0 & (Hg & Hc & _) & Hd & Hh & Hs)]; rewrite Hh.
    + split; [|by intros r c v b1 ?]. split; [by intros (h & b1 & ?)|].
      by intros [Hnf _].
    + rewrite cell_peek in Hc by done. assert (H0 : peek board r0 c0 = 0) by congruence.
      split.
      * split; [|eauto]. intros _. split; [|eauto].
        intros Hfull. by destruct (Hfull r0 c0 Hg).
      * intros r c v b1 ?. simplify_eq.
        assert (HwS : wf b') by by destruct Hfound.
        split.
        -- exists b'. split_and!; [|done|by apply cell_peek].
           destruct Hcomp as [HS Hext]. split; [done|].
           intros r' c' Hg'. rewrite peek_poke by done. case_decide as Hpos.
           ++ by injection Hpos as -> ->.
           ++ by apply Hext.
        -- intros S HS Huniq. rewrite <- (Huniq b' Hcomp). by apply cell_peek.
  - destruct Hstep as [Hnf Hh]. rewrite Hh.
    split; [|by intros r c v b1 ?]. split; [by intros (h & b1 & ?)|].
    intros [_ [S HS]]. by destruct (Hno S).
Qed.

Lemma get_hint_sound_and_complete_sample :
  ((exists hint board1, get_hint mock_extract_sudoku = Ok (Some hint, board1)) <->
   (~ full mock_extract_sudoku /\ exists S, completion mock_extract_sudoku S)) /\
  (forall r c v board1, get_hint mock_extract_sudoku = Ok (Some (r, c, v), board1) ->
     (exists S, completion board1 S /\ completion mock_extract_sudoku S /\
                cell S r c = Ok v) /\
     (forall S, completion mock_extract_sudoku S ->
        (forall S', completion mock_extract_sudoku S' -> S' = S) ->
        cell S r c = Ok v)).
Proof.
  apply (get_hint_sound_and_complete mock_extract_sudoku).
  apply consistentb_consistent. vm_compute. reflexivity.
Defined.

(** * Indices outside the grid *)

Module BoundsFacts.

Lemma norm_index_out len i :
  Z.of_nat len <= i \/ i < - Z.of_nat len -> norm_index len i = None.
Proof.
  intros Hi. unfold norm_index.
  destruct (Z.leb_spec 0 i), (Z.ltb_spec i (Z.of_nat len)),
    (Z.leb_spec (- Z.of_nat len) i), (Z.ltb_spec i 0); simpl; (done || lia).
Qed.

Lemma norm_index_wrap len i :
  0 <= i < Z.of_nat len -> norm_index len (i - Z.of_nat len) = norm_index len i.
Proof.
  intros Hi. unfold norm_index.
  destruct (Z.leb_spec 0 i), (Z.ltb_spec i (Z.of_nat len)),
    (Z.leb_spec 0 (i - Z.of_nat len)), (Z.ltb_spec (i - Z.of_nat len) (Z.of_nat len)),
    (Z.leb_spec (- Z.of_nat len) (i - Z.of_nat len)), (Z.ltb_spec (i - Z.of_nat len) 0);
    simpl; try lia.
  do 2 f_equal. lia.
Qed.

Lemma getitem_out {A} (l : list A) i :
  Z.of_nat (length l) <= i \/ i < - Z.of_nat (length l) -> getitem l i = Raise IndexError.
Proof. intros Hi. unfold getitem. by rewrite norm_index_out. Qed.

Lemma getitem_wrap {A} (l : list A) i :
  0 <= i < Z.of_nat (length l) -> getitem l (i - Z.of_nat (length l)) = getitem l i.
Proof. intros Hi. unfold getitem. by rewrite norm_index_wrap. Qed.

Lemma cell_row_out b r c :
  wf b -> 9 <= r \/ r < -9 -> cell b r c = Raise IndexError.
Proof.
  intros [Hlen _] Hr. unfold cell. rewrite getitem_out; [done|]. rewrite Hlen. lia.
Qed.

Lemma cell_col_out b r c :
  wf b -> 0 <= r < 9 -> 9 <= c \/ c < -9 -> cell b r c = Raise IndexError.
Proof.
  intros Hwf Hr Hc. destruct (wf_row b r Hwf Hr) as (row & Hrow & Hlen).
  unfold cell. rewrite (getitem_nonneg b r row) by (done || lia). cbn [Py.bind].
  apply getitem_out. rewrite Hlen. lia.
Qed.

Lemma cell_wrap_row b r c :
  wf b -> 0 <= r < 9 -> cell b (r - 9) c = cell b r c.
Proof.
  intros [Hlen _] Hr. unfold cell.
  replace (r - 9) with (r - Z.of_nat (length b)) by (rewrite Hlen; lia).
  rewrite getitem_wrap; [done|]. rewrite Hlen. lia.
Qed.

Lemma cell_wrap_col b r c :
  wf b -> in_grid r c -> cell b r (c - 9) = cell b r c.
Proof.
  intros Hwf [Hr Hc]. destruct (wf_row b r Hwf Hr) as (row & Hrow & Hlen).
  unfold cell. rewrite (getitem_nonneg b r row) by (done || lia). cbn [Py.bind].
  replace (c - 9) with (c - Z.of_nat (length row)) by (rewrite Hlen; lia).
  rewrite getitem_wrap; [done|]. rewrite Hlen. lia.
Qed.

Lemma any_in_ext {A} (f g : A -> result bool) xs :
  (forall x, x ∈ xs -> f x = g x) -> any_in f xs = any_in g xs.
Proof.
  induction xs as [|x xs IH]; intros Hfg; [done|]. cbn [any_in].
  rewrite (Hfg x) by left. destruct (g x) as [[|]|]; cbn [Py.bind]; try done.
  apply IH. intros y Hy. apply Hfg. by right.
Qed.

Lemma any_in_raise_first {A} (f : A -> result bool) x xs e :
  f x = Raise e -> any_in f (x :: xs) = Raise e.
Proof. intros Hx. cbn [any_in]. by rewrite Hx. Qed.

Lemma range_0_9_cons : range 0 9 = 0 :: range 1 9.
Proof. reflexivity. Qed.

(** The three scans of [is_valid], named. *)
Lemma is_valid_scans b r c v :
  is_valid b r c v =
  (hit <- any_in (fun x => w <- cell b r x ;; Ok (w =? v)) (range 0 9) ;;
   if hit then Ok false else
   hit <- any_in (fun x => w <- cell b x c ;; Ok (w =? v)) (range 0 9) ;;
   if hit then Ok false else
   hit <- any_in (fun i =>
            any_in (fun j =>
              w <- cell b (i + 3 * (r / 3)) (j + 3 * (c / 3)) ;; Ok (w =? v))
              (range 0 3))
            (range 0 3) ;;
   if hit then Ok false else Ok true).
Proof. reflexivity. Qed.

End BoundsFacts.

Import BoundsFacts.

(** X7: [is_valid] does not check its indices.  On a 9x9 grid a row index
    of 9 or more, or below -9, raises [IndexError]; a column index outside
    that range is only met after the row has been scanned, so the call
    returns false when the value is in the row and raises [IndexError] when
    it is not. *)
Theorem is_valid_index_out_of_range board r c v :
  wf board ->
  (9 <= r \/ r < -9 -> is_valid board r c v = Raise IndexError) /\
  (0 <= r < 9 -> 9 <= c \/ c < -9 ->
     (in_row board r v -> is_valid board r c v = Ok false) /\
     (~ in_row board r v -> is_valid board r c v = Raise IndexError)).
Proof.
  intros Hwf. rewrite is_valid_scans. split.
  - intros Hr. rewrite range_0_9_cons.
    rewrite (any_in_raise_first _ 0 _ IndexError); [done|].
    by rewrite cell_row_out.
  - intros Hr Hc.
    rewrite (any_in_existsb _ (fun x => peek board r x =? v)); last first.
    { intros x Hx%range_elem. by rewrite cell_peek. }
    cbn [Py.bind].
    assert (Hrow : in_row board r v <->
                   existsb (fun x => peek board r x =? v) (range 0 9) = true).
    { rewrite existsb_elem. unfold in_row. split.
      - intros (x & Hx & Hv). exists x. split; [by apply range_elem|].
        rewrite cell_peek in Hv by done. apply Z.eqb_eq. congruence.
      - intros (x & Hx%range_elem & Hv%Z.eqb_eq). exists x. split; [done|].
        rewrite cell_peek by done. by f_equal. }
    destruct (existsb _ (range 0 9)).
    + split; [done|]. intros Hno. destruct Hno. by apply Hrow.
    + split; [intros Hin%Hrow; done|]. intros _.
      rewrite range_0_9_cons.
      rewrite (any_in_raise_first _ 0 _ IndexError); [done|].
      by rewrite cell_col_out.
Qed.

Lemma is_valid_index_out_of_range_sample :
  (9 <= 9 \/ 9 < -9 -> is_valid mock_extract_sudoku 9 0 1 = Raise IndexError) /\
  (0 <= 9 < 9 -> 9 <= 0 \/ 0 < -9 ->
     (in_row mock_extract_sudoku 9 1 -> is_valid mock_extract_sudoku 9 0 1 = Ok false) /\
     (~ in_row mock_extract_sudoku 9 1 ->
      is_valid mock_extract_sudoku 9 0 1 = Raise IndexError)).
Proof.
  apply (is_valid_index_out_of_range mock_extract_sudoku 9 0 1).
  apply wfb_wf. vm_compute. reflexivity.
Defined.

(** X8: negative indices count from the end, as Python subscripts do: on a
    9x9 grid, [is_valid] at row r - 9 or column c - 9 answers as at row r and
    column c. *)
Theorem is_valid_negative_indices_wrap board r c v :
  wf board -> in_grid r c ->
  is_valid board (r - 9) c v = is_valid board r c v /\
  is_valid board r (c - 9) v = is_valid board r c v /\
  is_valid board (r - 9) (c - 9) v = is_valid board r c v.
Proof.
  intros Hwf [Hr Hc].
  assert (Hcell : forall dr dc x y, (dr = 0 \/ dr = -9) -> (dc = 0 \/ dc = -9) ->
            in_grid x y -> cell board (x + dr) (y + dc) = cell board x y).
  { intros dr dc x y Hdr Hdc [Hx Hy].
    destruct Hdr as [->| ->], Hdc as [->| ->]; rewrite ?Z.add_0_r; try done.
    - by apply cell_wrap_col.
    - by apply cell_wrap_row.
    - change (x + -9) with (x - 9). change (y + -9) with (y - 9).
      rewrite cell_wrap_row by done. by apply cell_wrap_col. }
  assert (Hgen : forall dr dc, (dr = 0 \/ dr = -9) -> (dc = 0 \/ dc = -9) ->
            is_valid board (r + dr) (c + dc) v = is_valid board r c v).
  { intros dr dc Hdr Hdc. rewrite !is_valid_scans.
    rewrite (any_in_ext _ (fun x => w <- cell board r x ;; Ok (w =? v))); last first.
    { intros x Hx%range_elem.
      pose proof (Hcell dr 0 r x Hdr ltac:(auto) ltac:(done)) as Heq.
      rewrite Z.add_0_r in Heq. by rewrite Heq. }
    destruct (any_in _ (range 0 9)) as [[|]|]; cbn [Py.bind]; try done.
    rewrite (any_in_ext _ (fun x => w <- cell board x c ;; Ok (w =? v))); last first.
    { intros x Hx%range_elem.
      pose proof (Hcell 0 dc x c ltac:(auto) Hdc ltac:(done)) as Heq.
      rewrite Z.add_0_r in Heq. by rewrite Heq. }
    destruct (any_in _ (range 0 9)) as [[|]|]; cbn [Py.bind]; try done.
    rewrite (any_in_ext _ (fun i =>
      any_in (fun j => w <- cell board (i + 3 * (r / 3)) (j + 3 * (c / 3)) ;; Ok (w =? v))
             (range 0 3))); [done|].
    intros i Hi%range_elem. apply any_in_ext. intros j Hj%range_elem.
    replace (i + 3 * ((r + dr) / 3)) with (i + 3 * (r / 3) + dr)
      by (destruct Hdr as [->| ->]; zdiv).
    replace (j + 3 * ((c + dc) / 3)) with (j + 3 * (c / 3) + dc)
      by (destruct Hdc as [->| ->]; zdiv).
    rewrite Hcell; [done|done|done|]. split; by apply box_origin. }
  split_and!.
  - rewrite <- (Hgen (-9) 0) by auto. by rewrite Z.add_0_r.
  - rewrite <- (Hgen 0 (-9)) by auto. by rewrite Z.add_0_r.
  - by rewrite <- (Hgen (-9) (-9)) by auto.
Qed.

Lemma is_valid_negative_indices_wrap_sample :
  is_valid mock_extract_sudoku (0 - 9) 2 4 = is_valid mock_extract_sudoku 0 2 4 /\
  is_valid mock_extract_sudoku 0 (2 - 9) 4 = is_valid mock_extract_sudoku 0 2 4 /\
  is_valid mock_extract_sudoku (0 - 9) (2 - 9) 4 = is_valid mock_extract_sudoku 0 2 4.
Proof.
  apply (is_valid_negative_indices_wrap mock_extract_sudoku 0 2 4).
  - apply wfb_wf. vm_compute. reflexivity.
  - split; lia.
Defined.

(** * Further properties of the extraction pipeline *)

Module PipelineFacts.

Lemma split_comma_whole s :
  (forall a b, s <> (a ++ "," ++ b)%string) -> split_comma s = [s].
Proof.
  induction s as [|ch rest IH]; intros Hno; [done|]. cbn [split_comma].
  destruct (Ascii.eqb_spec ch ","%char) as [->|Hne].
  - by destruct (Hno EmptyString rest).
  - rewrite IH; [done|]. intros a b ->. by destruct (Hno (String ch a) b).
Qed.

Lemma decode_image_no_comma E s :
  (forall a b, s <> (a ++ "," ++ b)%string) -> decode_image E s = Raise IndexError.
Proof. intros Hno. unfold decode_image. by rewrite split_comma_whole. Qed.

Lemma extract_cells_shape E image cells :
  extract_cells E image = Ok cells ->
  length cells = 9%nat /\ Forall (fun row_cells => length row_cells = 9%nat) cells.
Proof.
  unfold extract_cells. intros Hcells%collect_Forall2. split.
  - by rewrite <- (Forall2_length _ _ _ Hcells).
  - induction Hcells as [|i row_cells ? ? Hrow _ IH]; constructor; [|done].
    apply collect_Forall2 in Hrow. by rewrite <- (Forall2_length _ _ _ Hrow).
Qed.

(** A board that passed the gate holds at least 17 non-zero cells. *)
Lemma tesseract_cases E image :
  (extract_sudoku_with_tesseract E image = Ok VNone) \/
  (exists board, recognize_board E image = Ok board /\
     extract_sudoku_with_tesseract E image = Ok (of_board board) /\
     wf board /\ Forall (Forall (fun digit => 0 <= digit <= 9)) board /\
     17 <= nonzero_count board).
Proof.
  unfold extract_sudoku_with_tesseract.
  destruct (recognize_board E image) as [board|] eqn:Hrec; cbn [Py.bind try_except];
    [|by left].
  pose proof (recognize_board_digits E image board Hrec) as Hd.
  rewrite (digit_count_nonzero board Hd).
  destruct (Z.ltb_spec (nonzero_count board) 17); [by left|].
  right. exists board. split_and!; try done. by eapply recognize_board_wf.
Qed.

Lemma no_credentials_no_gemini E image image_data :
  gemini_available E = false \/ gemini_api_key E = None \/
  gemini_api_key E = Some EmptyString ->
  try_gemini E image image_data = Ok None.
Proof.
  unfold try_gemini. intros [->|[->| ->]]; [done| |]; by destruct (gemini_available E).
Qed.

End PipelineFacts.

Import PipelineFacts.

(** X9: [recognize_digit] turns every failure of the recognition itself into
    an empty cell: once the image has been inverted and enhanced, it returns
    a digit 0..9 whether the OCR call or the conversion of its text raises or
    not, and a non-zero digit is the integer value of the stripped OCR text.
    An exception of the inversion or of the enhancement, which come before
    the [try], is passed on. *)
Theorem recognize_digit_degrades_to_zero (E : Env) (cell_image : Image E) :
  (forall e, image_invert E cell_image = Raise e ->
     recognize_digit E cell_image = Raise e) /\
  (forall inverted e, image_invert E cell_image = Ok inverted ->
     image_enhance E inverted = Raise e -> recognize_digit E cell_image = Raise e) /\
  (forall inverted enhanced, image_invert E cell_image = Ok inverted ->
     image_enhance E inverted = Ok enhanced ->
     exists n, recognize_digit E cell_image = Ok n /\ 0 <= n <= 9 /\
       (n <> 0 -> exists text, image_to_string E enhanced = Ok text /\
                    str_isdigit E (str_strip E text) = true /\
                    py_int E (str_strip E text) = Ok n)).
Proof.
  unfold recognize_digit. split_and!.
  - by intros e ->.
  - intros c1 e -> Hen. cbn [Py.bind]. by rewrite Hen.
  - intros c1 c2 -> Hen. cbn [Py.bind]. rewrite Hen. cbn [Py.bind].
    destruct (image_to_string E c2) as [text|]; cbn [Py.bind try_except];
      [|exists 0; split_and!; (done || lia)].
    destruct (negb (String.eqb (str_strip E text) EmptyString)); cbn [andb];
      [|exists 0; split_and!; (done || lia)].
    destruct (str_isdigit E (str_strip E text)) eqn:Hdig; cbn [Py.bind try_except];
      [|exists 0; split_and!; (done || lia)].
    destruct (py_int E (str_strip E text)) as [k|] eqn:Hint; cbn [Py.bind try_except];
      [|exists 0; split_and!; (done || lia)].
    destruct (Z.leb_spec 1 k), (Z.leb_spec k 9); cbn [andb Py.bind try_except];
      try (exists 0; split_and!; (done || lia)).
    exists k. split_and!; (done || lia || eauto).
Qed.

(** X10: when [extract_cells] returns, it returns nine rows of nine cell
    images, whatever the size of the grid image. *)
Theorem extract_cells_returns_9_by_9 (E : Env) (grid_image : Image E) cells :
  extract_cells E grid_image = Ok cells ->
  length cells = 9%nat /\ Forall (fun row_cells => length row_cells = 9%nat) cells.
Proof. apply extract_cells_shape. Qed.

Lemma extract_cells_returns_9_by_9_sample :
  exists cells,
    extract_cells (printed_env true false None (Raise OtherError)) mock_extract_sudoku
    = Ok cells /\
    length cells = 9%nat /\ Forall (fun row_cells => length row_cells = 9%nat) cells.
Proof.
  eexists. split; [vm_compute; reflexivity|].
  apply (extract_cells_returns_9_by_9
           (printed_env true false None (Raise OtherError)) mock_extract_sudoku).
  vm_compute. reflexivity.
Defined.

(** X11: [extract_sudoku_with_tesseract] never raises, and what it returns is
    either [None] or a 9x9 board of digits 0..9 with at least 17 non-zero
    cells; any exception in preprocessing, cell extraction or recognition
    gives [None]. *)
Theorem tesseract_returns_grid_or_none (E : Env) (image : Image E) :
  (extract_sudoku_with_tesseract E image = Ok VNone \/
   exists board, extract_sudoku_with_tesseract E image = Ok (of_board board) /\
     recognize_board E image = Ok board /\ wf board /\
     Forall (Forall (fun digit => 0 <= digit <= 9)) board /\
     17 <= nonzero_count board) /\
  (forall e, recognize_board E image = Raise e ->
     extract_sudoku_with_tesseract E image = Ok VNone).
Proof.
  split.
  - destruct (tesseract_cases E image) as [?|(board & ? & ? & ? & ? & ?)]; [by left|].
    right. by exists board.
  - intros e He. unfold extract_sudoku_with_tesseract. by rewrite He.
Qed.

(** X12: the first strategy that succeeds wins.  When Tesseract is available
    and the structural strategy returns a board, [extract_sudoku_from_image]
    returns that board, whatever the vision model would have answered. *)
Theorem structural_result_wins (E : Env) (image_data : string) (image : Image E) v :
  decode_image E image_data = Ok image -> tesseract_available E = true ->
  extract_sudoku_with_tesseract E image = Ok v -> truthy v = true ->
  extract_sudoku_from_image E image_data = Ok v.
Proof.
  intros Hdec Hav Hv Ht. unfold extract_sudoku_from_image, try_tesseract.
  rewrite Hdec. cbn [bind_outcome try_except_outcome]. rewrite Hav, Hv.
  cbn [Py.bind]. by rewrite Ht.
Qed.

Lemma structural_result_wins_sample :
  extract_sudoku_from_image
    (shown_env mock_extract_sudoku true true (Some "key"%string) (Ok "[[1,2]]"%string))
    "data:image/png;base64,AAAA"
  = Ok (of_board mock_extract_sudoku).
Proof.
  apply (structural_result_wins
           (shown_env mock_extract_sudoku true true (Some "key"%string)
              (Ok "[[1,2]]"%string))
           "data:image/png;base64,AAAA" mock_extract_sudoku
           (of_board mock_extract_sudoku)).
  - vm_compute. reflexivity.
  - reflexivity.
  - vm_compute. reflexivity.
  - reflexivity.
Defined.

(** X13: without the vision model (the module missing, or the API key unset
    or empty) what [extract_sudoku_from_image] returns is always a
    well-formed grid: nine rows of nine digits 0..9. *)
Theorem without_vision_model_result_is_grid (E : Env) (image_data : string) :
  gemini_available E = false \/ gemini_api_key E = None \/
  gemini_api_key E = Some EmptyString ->
  exists v, extract_sudoku_from_image E image_data = Ok v /\ is_grid v.
Proof.
  intros Hno. pose proof mock_grid as Hmock. unfold extract_sudoku_from_image.
  destruct (decode_image E image_data) as [image|];
    cbn [bind_outcome try_except_outcome]; [|eauto].
  destruct (try_tesseract_cases E image) as [(v & -> & Ht & _ & Hv)| ->];
    cbn [bind_outcome try_except_outcome].
  { exists v. split; [done|]. by eapply tesseract_grid. }
  rewrite (no_credentials_no_gemini E image image_data Hno).
  cbn [bind_outcome try_except_outcome]. eauto.
Qed.

Lemma without_vision_model_result_is_grid_sample :
  exists v, extract_sudoku_from_image
              (shown_env sixteen_clues true false None (Raise OtherError))
              "data:image/png;base64,AAAA" = Ok v /\ is_grid v.
Proof.
  apply (without_vision_model_result_is_grid
           (shown_env sixteen_clues true false None (Raise OtherError))).
  left. reflexivity.
Defined.

(** X14: image data without a comma, so without the part after the data-URL
    header, makes the decoding raise [IndexError], and the sample puzzle is
    returned. *)
Theorem image_data_without_comma_gives_sample (E : Env) (image_data : string) :
  (forall a b, image_data <> (a ++ "," ++ b)%string) ->
  decode_image E image_data = Raise IndexError /\
  extract_sudoku_from_image E image_data = Ok (of_board mock_extract_sudoku).
Proof.
  intros Hno. pose proof (decode_image_no_comma E image_data Hno) as Hdec.
  split; [done|]. unfold extract_sudoku_from_image. by rewrite Hdec.
Qed.

Lemma image_data_without_comma_gives_sample_sample :
  decode_image (printed_env true true (Some "key"%string) (Ok "[[1,2]]"%string)) "AAAA"
  = Raise IndexError /\
  extract_sudoku_from_image
    (printed_env true true (Some "key"%string) (Ok "[[1,2]]"%string)) "AAAA"
  = Ok (of_board mock_extract_sudoku).
Proof.
  apply (image_data_without_comma_gives_sample
           (printed_env true true (Some "key"%string) (Ok "[[1,2]]"%string)) "AAAA").
  intros a b H.
  repeat (destruct a as [|? a];
          [rewrite ?app_nil, ?app_cons in H; discriminate H
          |rewrite app_cons in H; first [discriminate H | injection H as _ H]]).
Defined.


(** * The request handlers *)

Module RouteFacts.


Lemma getitem_nat {A} (l : list A) (i : nat) x :
  l !! i = Some x -> getitem l (Z.of_nat i) = Ok x.
Proof. intros Hx. apply getitem_nonneg; [lia|]. by rewrite Nat2Z.id. Qed.


Lemma setitem_nat {A} (l : list A) (i : nat) x :
  (i < length l)%nat -> setitem l (Z.of_nat i) x = Ok (<[i := x]> l).
Proof. intros Hi. rewrite setitem_nonneg by lia. by rewrite Nat2Z.id. Qed.

(** One step of the loops on a cell that converts. *)
Lemma normalize_cell_ok E (board : JBoard) (i : nat) pre x cells z :
  board !! i = Some (pre ++ x :: cells) -> cell_int E x = Ok z ->
  normalize_cell E board (Z.of_nat i) (Z.of_nat (length pre))
  = Ok (<[i := (pre ++ [JNum z]) ++ cells]> board).
Proof.
  intros Hrow Hx. unfold normalize_cell.
  rewrite (getitem_nat board i _ Hrow). cbn [Py.bind].
  rewrite (getitem_nat _ (length pre) x) by (by rewrite list_lookup_middle).
  cbn [Py.bind]. unfold cell_int in Hx.
  assert (Hset : forall v, setitem (pre ++ x :: cells) (Z.of_nat (length pre)) v
                           = Ok ((pre ++ [v]) ++ cells)).
  { intros v. rewrite setitem_nat by (rewrite length_app; simpl; lia).
    f_equal. rewrite insert_app_r_alt by lia. rewrite Nat.sub_diag.
    by rewrite <- app_assoc. }
  assert (Hlt : (i < length board)%nat) by by eapply lookup_lt_Some.
  destruct (is_blank x).
  - simplify_eq. rewrite Hset. cbn [Py.bind]. by rewrite setitem_nat.
  - rewrite Hx. cbn [Py.bind]. rewrite Hset. cbn [Py.bind]. by rewrite setitem_nat.
Qed.




Lemma seqZ_nat_cons (k n : nat) :
  seqZ (Z.of_nat k) (Z.of_nat (S n)) = Z.of_nat k :: seqZ (Z.of_nat (S k)) (Z.of_nat n).
Proof.
  rewrite seqZ_cons by lia. f_equal. f_equal; lia.
Qed.

(** The inner loop over a stretch of cells that convert. *)
Lemma normalize_cells_ok E (i : nat) cells zs :
  Forall2 (fun x z => cell_int E x = Ok z) cells zs ->
  forall (board : JBoard) pre rest,
    board !! i = Some (pre ++ cells ++ rest) ->
    for_each (fun board j => normalize_cell E board (Z.of_nat i) j)
      (seqZ (Z.of_nat (length pre)) (Z.of_nat (length cells))) board
    = Ok (<[i := pre ++ (JNum <$> zs) ++ rest]> board).
Proof.
  induction 1 as [|x z cells zs Hx _ IH]; intros board pre rest Hrow.
  - cbn. f_equal. symmetry. by apply list_insert_id.
  - rewrite length_cons, seqZ_nat_cons. cbn [for_each].
    rewrite (normalize_cell_ok E board i pre x (cells ++ rest) z) by done.
    cbn [Py.bind].
    replace (S (length pre)) with (length (pre ++ [JNum z]))
      by (rewrite length_app; simpl; lia).
    rewrite (IH _ (pre ++ [JNum z]) rest); last first.
    { apply list_lookup_insert_eq. by eapply lookup_lt_Some. }
    f_equal. rewrite list_insert_insert_eq. f_equal.
    rewrite <- app_assoc. done.
Qed.

(** The outer loop over a stretch of complete rows that convert. *)
Lemma normalize_rows_ok E rows grid :
  Forall2 (Forall2 (fun x z => cell_int E x = Ok z)) rows grid ->
  Forall (fun row => length row = 9%nat) rows ->
  forall (pre rest : JBoard),
    for_each (fun board i =>
      for_each (fun board j => normalize_cell E board i j) (range 0 9) board)
      (seqZ (Z.of_nat (length pre)) (Z.of_nat (length rows)))
      (pre ++ rows ++ rest)
    = Ok (pre ++ of_ints grid ++ rest).
Proof.
  induction 1 as [|row zs rows grid Hrow _ IH]; intros Hlen pre rest; [done|].
  apply Forall_cons in Hlen as [Hl Hlen].
  rewrite length_cons, seqZ_nat_cons. cbn [for_each].
  pose proof (normalize_cells_ok E (length pre) row zs Hrow
                (pre ++ (row :: rows) ++ rest) [] []) as Hinner.
  rewrite Hl in Hinner. change (seqZ (Z.of_nat (length [])) (Z.of_nat 9)) with (range 0 9) in Hinner.
  rewrite Hinner; last first.
  { rewrite app_nil_r. cbn [app]. by rewrite list_lookup_middle. }
  cbn [Py.bind]. rewrite app_nil_r. cbn [app].
  rewrite insert_app_r_alt by lia. rewrite Nat.sub_diag. cbn [insert list_insert].
  replace (S (length pre)) with (length (pre ++ [JNum <$> zs]))
    by (rewrite length_app; simpl; lia).
  replace (pre ++ (JNum <$> zs) :: rows ++ rest)
    with ((pre ++ [JNum <$> zs]) ++ rows ++ rest) by by rewrite <- app_assoc.
  rewrite (IH Hlen). f_equal. by rewrite <- app_assoc.
Qed.

(** On a board of nine rows of nine cells that all convert, the loops leave
    the grid of the converted integers. *)
Lemma normalize_board_ok E board grid :
  wf_request board -> reads_as E board grid ->
  normalize_board E board = Ok (of_ints grid).
Proof.
  intros [Hlen Hrows] Hreads. unfold normalize_board.
  pose proof (normalize_rows_ok E board grid Hreads Hrows [] []) as Hall.
  rewrite Hlen, !app_nil_r in Hall. exact Hall.
Qed.

Lemma reads_as_wf E board grid :
  wf_request board -> reads_as E board grid -> wf grid.
Proof.
  intros [Hlen Hrows] Hreads. split.
  - by rewrite <- (Forall2_length _ _ _ Hreads).
  - clear Hlen. induction Hreads as [|row zs ? ? Hrow _ IH]; [constructor|].
    apply Forall_cons in Hrows as [Hl Hrows]. constructor; [|by apply IH].
    by rewrite <- (Forall2_length _ _ _ Hrow).
Qed.

Lemma as_ints_of_ints grid : as_ints (of_ints grid) = grid.
Proof.
  unfold as_ints, of_ints. rewrite <- list_fmap_compose.
  rewrite <- (list_fmap_id grid) at 2. apply list_fmap_ext. intros _ row _. cbn.
  rewrite <- list_fmap_compose. rewrite <- (list_fmap_id row) at 2.
  by apply list_fmap_ext.
Qed.

Lemma with_ints_row (zs ws : list Z) :
  length zs = length ws ->
  zip_with (fun x z => match x with JNum _ => JNum z | _ => x end) (JNum <$> zs) ws
  = JNum <$> ws.
Proof.
  revert ws. induction zs as [|z zs IH]; intros [|w ws] Hl; try done.
  cbn. f_equal. apply IH. by injection Hl.
Qed.

Lemma with_ints_of_ints grid ints :
  wf grid -> wf ints -> with_ints (of_ints grid) ints = of_ints ints.
Proof.
  intros [Hl1 Hr1] [Hl2 Hr2]. unfold with_ints, of_ints.
  assert (Hlen : length grid = length ints) by congruence. clear Hl1 Hl2.
  revert ints Hlen Hr2. induction Hr1 as [|row grid Hrow _ IH];
    intros [|zs ints] Hlen Hr2; try done.
  apply Forall_cons in Hr2 as [Hzs Hr2]. cbn. f_equal.
  - apply with_ints_row. congruence.
  - apply IH; [by injection Hlen|done].
Qed.

(** What [solve] and [hint] answer on a board of nine rows of nine cells
    that all convert. *)
Lemma solve_reads E board grid :
  wf_request board -> reads_as E board grid ->
  solve E (Some board) =
  match solve_sudoku grid with
  | Ok (true, ints) => Solution (of_ints ints)
  | Ok (false, _) => NoSolution
  | Raise e => ServerError e
  end.
Proof.
  intros Hwf Hreads. pose proof (reads_as_wf E board grid Hwf Hreads) as Hg.
  unfold solve. destruct board as [|row board]; [by destruct Hwf|].
  rewrite (normalize_board_ok E _ grid Hwf Hreads). cbn [Py.bind].
  rewrite list_fmap_id, as_ints_of_ints.
  destruct (solve_cases grid Hg) as [(b' & -> & Hw' & _)|[-> _]]; cbn [Py.bind answer].
  - by rewrite with_ints_of_ints.
  - done.
Qed.

Lemma hint_reads E board grid :
  wf_request board -> reads_as E board grid ->
  hint E (Some board) =
  match get_hint grid with
  | Ok (Some (row, col, value), _) => Hint row col value
  | Ok (None, _) => NoHint
  | Raise e => ServerError e
  end.
Proof.
  intros Hwf Hreads. unfold hint. destruct board as [|row board]; [by destruct Hwf|].
  rewrite (normalize_board_ok E _ grid Hwf Hreads). cbn [Py.bind].
  rewrite as_ints_of_ints.
  by destruct (get_hint grid) as [[[[[r c] v]|] b1]|].
Qed.



Lemma of_ints_length grid : length (of_ints grid) = length grid.
Proof. unfold of_ints. by rewrite length_fmap. Qed.


(** A grid of integers, as the board of a request, reads as itself. *)
Lemma of_ints_reads E grid : reads_as E (of_ints grid) grid.
Proof.
  unfold reads_as, of_ints. apply Forall2_fmap_l, Forall_Forall2_diag, Forall_forall.
  intros row _. apply Forall2_fmap_l, Forall_Forall2_diag, Forall_forall.
  by intros z _.
Qed.

Lemma of_ints_wf grid : wf grid -> wf_request (of_ints grid).
Proof.
  intros [Hlen Hrows]. split; [by rewrite of_ints_length|].
  unfold of_ints. apply Forall_fmap. eapply Forall_impl; [exact Hrows|].
  intros row Hrow. cbn. by rewrite length_fmap.
Qed.

Lemma of_ints_inj g1 g2 : of_ints g1 = of_ints g2 -> g1 = g2.
Proof.
  intros Heq. rewrite <- (as_ints_of_ints g1), <- (as_ints_of_ints g2).
  by rewrite Heq.
Qed.


End RouteFacts.

Import RouteFacts.

(** X15: the [/api/solve] handler on a board of nine rows of nine cells that
    all convert (empty string and [null] as 0) answers either 200 with a full
    grid that keeps every given cell, or 400 "No solution exists" and then the
    grid has no valid completion.  When the given cells are consistent the
    grid answered is a valid completion, the first of all completions in
    row-major order. *)
Theorem solve_answers_full_grid_or_400 (E : Env) board grid :
  wf_request board -> reads_as E board grid ->
  (exists S, solve E (Some board) = Solution (of_ints S) /\ wf S /\ full S /\
     extends grid S /\
     (consistent grid ->
      completion grid S /\ forall S', completion grid S' -> row_major_le S S')) \/
  (solve E (Some board) = NoSolution /\ forall S, ~ completion grid S).
Proof.
  intros Hwf Hreads. pose proof (reads_as_wf E board grid Hwf Hreads) as Hg.
  rewrite (solve_reads E board grid Hwf Hreads).
  destruct (solve_cases grid Hg) as [(S & Heq & Hfound)|[Heq Hno]]; rewrite Heq;
    [left|by right].
  pose proof Hfound as (HwS & Hfull & Hext & _).
  exists S. split_and!; try done. intros Hcons. split.
  - by apply found_completion.
  - intros S' HS'.
    apply (solve_least (Datatypes.S (empties grid)) grid S S'); (done || lia).
Qed.

Lemma solve_answers_full_grid_or_400_sample :
  (exists S, solve (printed_env true false None (Raise OtherError)) (Some sample_request)
             = Solution (of_ints S) /\ wf S /\ full S /\
     extends mock_extract_sudoku S /\
     (consistent mock_extract_sudoku ->
      completion mock_extract_sudoku S /\
      forall S', completion mock_extract_sudoku S' -> row_major_le S S')) \/
  (solve (printed_env true false None (Raise OtherError)) (Some sample_request)
   = NoSolution /\ forall S, ~ completion mock_extract_sudoku S).
Proof.
  apply (solve_answers_full_grid_or_400
           (printed_env true false None (Raise OtherError))
           sample_request mock_extract_sudoku).
  - split; [reflexivity|]. repeat constructor.
  - repeat constructor.
Defined.

(** X16: the [/api/hint] handler on such a board answers either 200 with the
    first empty cell in row-major order and a digit 1..9, the very digit that
    the grid answered by [/api/solve] for the same board holds at that cell,
    or 400 "Could not find a hint", and then the grid is already full or has
    no valid completion. *)
Theorem hint_answers_cell_of_solution (E : Env) board grid :
  wf_request board -> reads_as E board grid ->
  (exists r c S, hint E (Some board) = Hint r c (peek S r c) /\
     first_empty grid r c /\ 1 <= peek S r c <= 9 /\
     solve E (Some board) = Solution (of_ints S)) \/
  (hint E (Some board) = NoHint /\ (full grid \/ forall S, ~ completion grid S)).
Proof.
  intros Hwf Hreads. pose proof (reads_as_wf E board grid Hwf Hreads) as Hg.
  rewrite (solve_reads E board grid Hwf Hreads), (hint_reads E board grid Hwf Hreads).
  pose proof (get_hint_step grid Hg) as Hstep.
  destruct (solve_cases grid Hg) as [(S & Heq & Hfound)|[Heq Hno]];
    rewrite Heq in Hstep |- *.
  - destruct Hstep as [[Hfull ->]|(r & c & Hfe & Hd & -> & _)].
    + right. split; [done|by left].
    + left. by exists r, c, S.
  - destruct Hstep as [_ ->]. right. split; [done|by right].
Qed.

Lemma hint_answers_cell_of_solution_sample :
  (exists r c S, hint (printed_env true false None (Raise OtherError)) (Some sample_request)
                 = Hint r c (peek S r c) /\
     first_empty mock_extract_sudoku r c /\ 1 <= peek S r c <= 9 /\
     solve (printed_env true false None (Raise OtherError)) (Some sample_request)
     = Solution (of_ints S)) \/
  (hint (printed_env true false None (Raise OtherError)) (Some sample_request) = NoHint /\
   (full mock_extract_sudoku \/ forall S, ~ completion mock_extract_sudoku S)).
Proof.
  apply (hint_answers_cell_of_solution
           (printed_env true false None (Raise OtherError))
           sample_request mock_extract_sudoku).
  - split; [reflexivity|]. repeat constructor.
  - repeat constructor.
Defined.




(** X19: a solution is a fixed point of the service.  The grid that
    [/api/solve] answers for a board of nine rows of nine cells, sent back as
    the board of a new request, is answered unchanged by [/api/solve], and
    [/api/hint] answers 400 for it, there being no empty cell left. *)
Theorem solution_sent_back_is_unchanged (E : Env) board grid solution :
  wf_request board -> reads_as E board grid ->
  solve E (Some board) = Solution solution ->
  solve E (Some solution) = Solution solution /\ hint E (Some solution) = NoHint.
Proof.
  intros Hwf Hreads Hsolve. pose proof (reads_as_wf E board grid Hwf Hreads) as Hg.
  rewrite (solve_reads E board grid Hwf Hreads) in Hsolve.
  destruct (solve_cases grid Hg) as [(S & Heq & HwS & Hfull & _)|[Heq _]];
    rewrite Heq in Hsolve; [|done].
  injection Hsolve as <-.
  rewrite (solve_reads E (of_ints S) S (of_ints_wf S HwS) (of_ints_reads E S)).
  rewrite (hint_reads E (of_ints S) S (of_ints_wf S HwS) (of_ints_reads E S)).
  destruct (solve_step S HwS) as [[_ ->]|(r & c & _ & Hgrid & H0 & _)];
    [|by destruct (Hfull r c Hgrid)].
  destruct (get_hint_cases S HwS) as [[_ ->]|(r & c & _ & Hgrid & H0 & _)];
    [done|by destruct (Hfull r c Hgrid)].
Qed.

Lemma solution_sent_back_is_unchanged_sample :
  solve (printed_env true false None (Raise OtherError)) (Some (of_ints sample_solution))
  = Solution (of_ints sample_solution) /\
  hint (printed_env true false None (Raise OtherError)) (Some (of_ints sample_solution))
  = NoHint.
Proof.
  apply (solution_sent_back_is_unchanged
           (printed_env true false None (Raise OtherError))
           sample_request mock_extract_sudoku (of_ints sample_solution)).
  - split; [reflexivity|]. repeat constructor.
  - repeat constructor.
  - vm_compute. reflexivity.
Defined.

(** * The data URL of a request *)

Module DecodeFacts.

Lemma split_comma_nonempty s : split_comma s <> [].
Proof.
  induction s as [|ch rest IH]; [done|]. cbn [split_comma].
  destruct (Ascii.eqb ch ","%char); [done|]. by destruct (split_comma rest).
Qed.

(** [split] cuts at the first comma. *)
Lemma split_comma_cut header rest :
  (forall a b, header <> (a ++ "," ++ b)%string) ->
  split_comma (header ++ "," ++ rest) = header :: split_comma rest.
Proof.
  induction header as [|ch header IH]; intros Hno.
  - rewrite app_nil, app_cons, app_nil. cbn [split_comma].
    by rewrite Ascii.eqb_refl.
  - rewrite app_cons. cbn [split_comma].
    destruct (Ascii.eqb_spec ch ","%char) as [->|Hne].
    + by destruct (Hno EmptyString header).
    + rewrite IH; [done|]. intros a b ->. by destruct (Hno (String ch a) b).
Qed.

End DecodeFacts.

Import DecodeFacts.

(** X20: of the image data [extract_sudoku_from_image] decodes exactly the
    text between the first comma and the second one, or the end when there is
    no second comma: for a data URL [header,payload] the payload is what is
    opened as the image, and whatever follows a further comma is ignored. *)
Theorem decode_image_opens_payload (E : Env) (header payload : string) :
  (forall a b, header <> (a ++ "," ++ b)%string) ->
  (forall a b, payload <> (a ++ "," ++ b)%string) ->
  decode_image E (header ++ "," ++ payload) = open_image E payload /\
  forall more,
    decode_image E (header ++ "," ++ payload ++ "," ++ more) = open_image E payload.
Proof.
  intros Hheader Hpayload. unfold decode_image. split.
  - rewrite (split_comma_cut header payload Hheader).
    rewrite (split_comma_whole payload Hpayload). reflexivity.
  - intros more. rewrite (split_comma_cut header _ Hheader).
    rewrite (split_comma_cut payload more Hpayload).
    change 1 with (Z.of_nat 1).
    by rewrite (getitem_nat (header :: payload :: split_comma more) 1 payload eq_refl).
Qed.

Lemma decode_image_opens_payload_sample :
  decode_image (shown_env mock_extract_sudoku true false None (Raise OtherError))
    ("ab" ++ "," ++ "AA")
  = open_image (shown_env mock_extract_sudoku true false None (Raise OtherError)) "AA" /\
  forall more,
    decode_image (shown_env mock_extract_sudoku true false None (Raise OtherError))
      ("ab" ++ "," ++ "AA" ++ "," ++ more)
    = open_image (shown_env mock_extract_sudoku true false None (Raise OtherError)) "AA".
Proof.
  apply (decode_image_opens_payload
           (shown_env mock_extract_sudoku true false None (Raise OtherError)) "ab" "AA").
  - intros a b H.
    repeat (destruct a as [|? a];
            [rewrite ?app_nil, ?app_cons in H; discriminate H
            |rewrite app_cons in H; first [discriminate H | injection H as _ H]]).
  - intros a b H.
    repeat (destruct a as [|? a];
            [rewrite ?app_nil, ?app_cons in H; discriminate H
            |rewrite app_cons in H; first [discriminate H | injection H as _ H]]).
Defined.
